(** * Mrd.py: ultimate bending resistance of a rectangular RC section (EC-2)

    Shallow embedding of [src/Mrd.py] and the properties stated about it.

    Numbers.  A Python [float] is modelled by the rational number it
    denotes: every literal of the source is read as the decimal it writes
    and [+ - * / ** abs] are exact, where the binary64 operations of Python
    round.  The operations [+.], [-.], [*.], [fsqr] and [fdiv] return their
    result in lowest terms ([Qred]), which changes no value ([Qred q == q])
    and keeps the model runnable through the hundreds of bisection steps of
    a real call.  Comparisons of the source are the boolean comparisons of
    [Q]; values are compared with [==] ([Qeq]).  Python [int] arguments
    ([nlayers_concrete], [itmax]) are [Z].  A statement that holds only
    without rounding says "in exact arithmetic"; the statements about which
    branch is taken, which value is returned and which exception is raised
    do not depend on it.  Where the rounding itself decides a statement,
    the function is given a second time on binary64 floats (module
    [Binary64]).

    Faults.  A Python exception is a value [Raise e] of the type [result].
    Every [/] of the source is a checked division, which raises
    [ZeroDivisionError] on a zero divisor; the int operand of
    [h_mm / nlayers_concrete] is first converted to a float, which raises
    [OverflowError] for an int of magnitude [2^1024 - 2^970] or more; [**]
    raises [OverflowError] when the power has no float; [max(None, 1e-6)]
    raises [TypeError].  The operations [+ - *] of Python raise nothing.
    The limits of memory and time are not modelled. *)

From Stdlib Require Import QArith Qabs Qminmax Qpower Qreduction.
From Stdlib Require Import Lqa Lia List ZArith Bool.
From Stdlib Require Import Morphisms Setoid Permutation.
From Stdlib Require Import Floats.
Import ListNotations.
Open Scope Q_scope.

(** ** Exceptions *)

Inductive exn : Type :=
| ZeroDivisionError
| OverflowError
| TypeError
| AttributeError.

Inductive result (A : Type) : Type :=
| Ok (a : A)
| Raise (e : exn).
Arguments Ok {A} a.
Arguments Raise {A} e.

Definition bind {A B : Type} (m : result A) (f : A -> result B) : result B :=
  match m with
  | Ok a => f a
  | Raise e => Raise e
  end.

Notation "x <- m ;; k" := (bind m (fun x => k))
  (at level 61, m at next level, right associativity).
Notation "' pat <- m ;; k" := (bind m (fun x => match x with pat => k end))
  (at level 61, pat pattern, m at next level, right associativity).

(** A [for] loop whose body may raise: the accumulator is threaded from
    left to right and the first exception aborts the loop. *)
Fixpoint foldM {A B : Type} (f : A -> B -> result A) (l : list B) (a : A)
  : result A :=
  match l with
  | [] => Ok a
  | x :: l' => a' <- f a x ;; foldM f l' a'
  end.

(** ** Float operations *)

Definition fadd (x y : Q) : Q := Qred (x + y).
Definition fsub (x y : Q) : Q := Qred (x - y).
Definition fmul (x y : Q) : Q := Qred (x * y).

(** The square of [x]. *)
Definition fsqr (x : Q) : Q := Qred (x ^ 2).

(** [x < y] *)
Definition Qltb (x y : Q) : bool := negb (Qle_bool y x).

(** [x / y] *)
Definition fdiv (x y : Q) : result Q :=
  if Qeq_bool y 0 then Raise ZeroDivisionError else Ok (Qred (x / y)).

(** The least magnitude that has no float: [2^1024 - 2^970], half a unit
    in the last place above the largest float.  A value of at least this
    magnitude rounds to an infinity. *)
Definition float_overflow : Z := Eval vm_compute in (2 ^ 1024 - 2 ^ 970)%Z.

(** [float(n)] for a Python [int], the conversion that [/] applies to an
    int operand: it raises [OverflowError] when the int has no float. *)
Definition float_of_int (n : Z) : result Q :=
  if (Z.abs n <? float_overflow)%Z then Ok (inject_Z n)
  else Raise OverflowError.

(** [x / n] for a float [x] and an int [n]. *)
Definition fdiv_int (x : Q) (n : Z) : result Q :=
  y <- float_of_int n ;; fdiv x y.

(** [x ** 2] as Python evaluates it: [OverflowError] when the square has
    no float, [fsqr x] otherwise. *)
Definition fpow2 (x : Q) : result Q :=
  if Qle_bool (inject_Z float_overflow) (x ^ 2) then Raise OverflowError
  else Ok (fsqr x).

(** [max(a, b)]: the first argument unless the second is strictly larger. *)
Definition pymax (a b : Q) : Q := if Qltb a b then b else a.

(** A float that may be the not-a-number value of [float('nan')]. *)
Inductive pyfloat : Type :=
| Finite (q : Q)
| NaN.

(** ** Data classes *)

Record SteelLayer : Type := mkSteelLayer {
  y_mm : Q;
  As_mm2 : Q
}.

Record Materials : Type := mkMaterials {
  fck_MPa : Q;
  fyk_MPa : Q;
  gamma_c : Q;
  gamma_s : Q;
  alpha_cc : Q;
  Es_MPa : Q;
  eps_c2 : Q;
  eps_cu2 : Q
}.

Definition default_materials : Materials :=
  mkMaterials 30 500 1.5 1.15 0.85 200000 0.0020 0.0035.

Inductive Sign : Type :=
| positivo
| negativo.

(** ** The functions of [Mrd.py]

    Inside this section [+.], [-.] and [*.] are the float operations. *)
Section Embedding.

Notation "x +. y" := (fadd x y) (at level 50, left associativity).
Notation "x -. y" := (fsub x y) (at level 50, left associativity).
Notation "x *. y" := (fmul x y) (at level 40, left associativity).

(** The two properties of [Materials]. *)
Definition fcd (m : Materials) : result Q :=
  fdiv (alpha_cc m *. fck_MPa m) (gamma_c m).

Definition fyd (m : Materials) : result Q :=
  fdiv (fyk_MPa m) (gamma_s m).

(** [math.pi], by the decimal that Python writes for it. *)
Definition math_pi : Q := 3.141592653589793.

(** [math.pi * (d**2) / 4.0], the term of the sum in [area_barras]. *)
Definition bar_area (d : Q) : result Q :=
  sq <- fpow2 d ;;
  fdiv (math_pi *. sq) 4.0.

(** [sum(... for d in diams_mm)]: the sum starts from 0 and adds the
    terms from left to right. *)
Definition area_barras (diams_mm : list Q) : result Q :=
  foldM (fun acc d => a <- bar_area d ;; Ok (acc +. a)) diams_mm 0.

Definition sigma_c_ec2 (eps_c fcd eps_c2 eps_cu2 : Q) : result Q :=
  if Qle_bool eps_c 0 then Ok 0
  else if Qle_bool eps_c eps_c2 then
    eta <- fdiv eps_c eps_c2 ;;
    sq <- fpow2 (1 -. eta) ;;
    Ok (fcd *. (1 -. sq))
  else if Qle_bool eps_c eps_cu2 then Ok fcd
  else Ok 0.

Definition sigma_s_bilineal (eps_s Es fyd : Q) : Q :=
  let sig := Es *. eps_s in
  if Qltb fyd sig then fyd
  else if Qltb sig (- fyd) then - fyd
  else sig.

(** [map_y], the local function of [mrd_fibers_rect]. *)
Definition map_y (sign : Sign) (h_mm y : Q) : Q :=
  match sign with
  | positivo => y
  | negativo => h_mm -. y
  end.

(** [[SteelLayer(y_mm=map_y(sl.y_mm), As_mm2=sl.As_mm2) for sl in steel_layers]] *)
Definition mapped_layers (sign : Sign) (h_mm : Q)
  (steel_layers : list SteelLayer) : list SteelLayer :=
  map (fun sl => mkSteelLayer (map_y sign h_mm (y_mm sl)) (As_mm2 sl))
      steel_layers.

(** [range(n)] for a Python integer [n]: empty when [n <= 0]. *)
Definition range (n : Z) : list Z := map Z.of_nat (seq 0 (Z.to_nat n)).

(** [[(i+0.5)*dy for i in range(nlayers_concrete)]].  The conversion of
    the int [i] to a float cannot fail here: [i] is below
    [nlayers_concrete], whose conversion succeeded on the line before. *)
Definition y_centers (dy : Q) (nlayers_concrete : Z) : list Q :=
  map (fun i => (inject_Z i +. 0.5) *. dy) (range nlayers_concrete).

(** The variables that the closure [section_resultants] and the loops of
    [mrd_fibers_rect] capture from the enclosing call. *)
Section Closure.

Variables (mat : Materials) (b_mm dy fcd fyd : Q).
Variables (ys : list Q) (layers : list SteelLayer).

(** Body of [for y in y_centers]. *)
Definition concrete_body (kappa c_mm : Q) (acc : Q * Q) (y : Q)
  : result (Q * Q) :=
  let '(Nc, Mc) := acc in
  let eps := kappa *. (c_mm -. y) in
  sig <- sigma_c_ec2 eps fcd (eps_c2 mat) (eps_cu2 mat) ;;
  let Fc := sig *. b_mm *. dy in
  Ok (Nc +. Fc, Mc +. Fc *. (y +. 0)).

(** [Fs] of a steel layer, as both steel loops compute it. *)
Definition steel_force (kappa c_mm : Q) (sl : SteelLayer) : Q :=
  let eps_s := kappa *. (c_mm -. y_mm sl) in
  let sig_s := sigma_s_bilineal eps_s (Es_MPa mat) fyd in
  sig_s *. As_mm2 sl.

(** Body of [for sl in layers] in [section_resultants]. *)
Definition steel_body (kappa c_mm : Q) (acc : Q * Q) (sl : SteelLayer)
  : Q * Q :=
  let '(Ns, Ms) := acc in
  let Fs := steel_force kappa c_mm sl in
  (Ns +. Fs, Ms +. Fs *. y_mm sl).

Definition section_resultants (c_mm : Q) : result (Q * Q * Q) :=
  kappa <- fdiv (eps_cu2 mat) (pymax c_mm 1e-6) ;;
  '(Nc, Mc) <- foldM (concrete_body kappa c_mm) ys (0, 0) ;;
  let '(Ns, Ms) := fold_left (steel_body kappa c_mm) layers (0, 0) in
  let N := Nc +. Ns in
  let M := Mc +. Ms in
  Ok (N, M, kappa).

(** [while N_low * N_high > 0 and expand < 8]: [attempts] is the number
    of expansions still allowed, [8 - expand]. *)
Fixpoint expand_bracket (attempts : nat) (N_low c_high N_high : Q)
  : result (Q * Q) :=
  match attempts with
  | O => Ok (c_high, N_high)
  | S k =>
      if Qltb 0 (N_low *. N_high) then
        let c_high := c_high *. 1.8 in
        '(N_high, _, _) <- section_resultants c_high ;;
        expand_bracket k N_low c_high N_high
      else Ok (c_high, N_high)
  end.

(** [for _ in range(itmax)]: [iters] is the number of iterations left;
    [c] is [None] until the first midpoint is stored. *)
Fixpoint bisect (tol_N : Q) (iters : nat) (c_low c_high N_low N_high : Q)
  (c : option Q) : result (option Q) :=
  match iters with
  | O => Ok c
  | S k =>
      let c_mid := 0.5 *. (c_low +. c_high) in
      '(N_mid, _, _) <- section_resultants c_mid ;;
      if Qltb (Qabs N_mid) tol_N then Ok (Some c_mid)
      else if Qle_bool (N_low *. N_mid) 0
           then bisect tol_N k c_low c_mid N_low N_mid (Some c_mid)
           else bisect tol_N k c_mid c_high N_mid N_high (Some c_mid)
  end.

(** Body of the loop that accumulates [T_abs]. *)
Definition tension_body (c : Q) (T_abs : Q) (sl : SteelLayer) : result Q :=
  kappa <- fdiv (eps_cu2 mat) (pymax c 1e-6) ;;
  let Fs := steel_force kappa c sl in
  if Qltb Fs 0 then Ok (T_abs +. - Fs) else Ok T_abs.

(** [z_eq = (abs(M_eq) / T_abs) if T_abs > 1e-9 else float('nan')] *)
Definition lever_arm (M_eq T_abs : Q) : result pyfloat :=
  if Qltb 1e-9 T_abs
  then z <- fdiv (Qabs M_eq) T_abs ;; Ok (Finite z)
  else Ok NaN.

(** The code from [c_low = 1e-3] to the [return]. *)
Definition solve_and_report (h_mm tol_N : Q) (itmax : Z)
  : result (Q * Q * pyfloat) :=
  let c_low := 1e-3 in
  let c_high := 3.0 *. h_mm in
  '(N_low, _, _) <- section_resultants c_low ;;
  '(N_high, _, _) <- section_resultants c_high ;;
  '(c_high, N_high) <- expand_bracket 8 N_low c_high N_high ;;
  c <- bisect tol_N (Z.to_nat itmax) c_low c_high N_low N_high None ;;
  match c with
  | None => Raise TypeError          (* max(None, 1e-6) *)
  | Some c =>
      '(N_eq, M_eq, kappa) <- section_resultants c ;;
      MRd_kNm <- fdiv (Qabs M_eq) 1e6 ;;
      T_abs <- foldM (tension_body c) layers 0 ;;
      z_eq <- lever_arm M_eq T_abs ;;
      Ok (MRd_kNm, c, z_eq)
  end.

End Closure.

Definition mrd_fibers_rect (b_mm h_mm : Q) (steel_layers : list SteelLayer)
  (materials : Materials) (nlayers_concrete : Z) (sign : Sign)
  (tol_N : Q) (itmax : Z) : result (Q * Q * pyfloat) :=
  let mat := materials in
  fcd <- fcd mat ;;
  fyd <- fyd mat ;;
  let layers := mapped_layers sign h_mm steel_layers in
  dy <- fdiv_int h_mm nlayers_concrete ;;
  let y_centers := y_centers dy nlayers_concrete in
  solve_and_report mat b_mm dy fcd fyd y_centers layers h_mm tol_N itmax.

End Embedding.

(** ** The concrete law on binary64 floats

    [sigma_c_ec2] once more, on the primitive floats of Rocq: these are the
    IEEE 754 binary64 numbers of a Python [float], with the same rounding
    of [+ - * /] (to nearest, ties to even).  This second embedding is
    used where the rounding of the parabola decides a statement. *)
Module Binary64.

Local Open Scope float_scope.

(** [x / y] *)
Definition fdiv (x y : float) : result float :=
  if y =? 0 then Raise ZeroDivisionError else Ok (x / y).

(** [x ** 2], taken as the correctly rounded square: a nan and an
    infinity are returned as they are, and the power of a finite number
    that overflows raises [OverflowError]. *)
Definition fpow2 (x : float) : result float :=
  let r := x * x in
  if is_infinity r && negb (is_infinity x) then Raise OverflowError
  else Ok r.

Definition sigma_c_ec2 (eps_c fcd eps_c2 eps_cu2 : float) : result float :=
  if eps_c <=? 0 then Ok 0
  else if eps_c <=? eps_c2 then
    eta <- fdiv eps_c eps_c2 ;;
    sq <- fpow2 (1 - eta) ;;
    Ok (fcd * (1 - sq))
  else if eps_c <=? eps_cu2 then Ok fcd
  else Ok 0.

End Binary64.

(** ** Reference definitions

    The definitions below restate, in plain rational arithmetic, what the
    specification says the code computes; the theorems compare them with
    the definitions above. *)

(** The parabola-rectangle law, clause by clause. *)
Inductive sigma_c_piecewise (fcd eps_c2 eps_cu2 strain : Q) : Q -> Prop :=
| pw_tension :
    strain <= 0 -> sigma_c_piecewise fcd eps_c2 eps_cu2 strain 0
| pw_parabola :
    0 < strain -> strain <= eps_c2 ->
    sigma_c_piecewise fcd eps_c2 eps_cu2 strain
      (fcd * (1 - (1 - strain / eps_c2) ^ 2))
| pw_plateau :
    eps_c2 < strain -> strain <= eps_cu2 ->
    sigma_c_piecewise fcd eps_c2 eps_cu2 strain fcd
| pw_beyond :
    eps_cu2 < strain -> sigma_c_piecewise fcd eps_c2 eps_cu2 strain 0.

(** [Es * strain] clipped to [[-fyd, +fyd]]. *)
Definition clip_steel (strain Es fyd : Q) : Q :=
  Qmax (- fyd) (Qmin fyd (Es * strain)).

(** The value that [sigma_c_ec2] returns (it never raises, see
    [sigma_c_ec2_total]). *)
Definition sigma_c_value (strain fcd eps_c2 eps_cu2 : Q) : Q :=
  match sigma_c_ec2 strain fcd eps_c2 eps_cu2 with
  | Ok v => v
  | Raise _ => 0
  end.

Definition Qsum (l : list Q) : Q := fold_right Qplus 0 l.

(** The resultants of a trial depth [c] as the specification defines
    them: [n] slices of thickness [h / n] centred at [(i + 0.5) * h / n],
    curvature [eps_cu2 / max(c, 1e-6)], and N and M the sums of the slice
    and layer contributions, M about the edge [y = 0]. *)
Section Reference.

Variables (mat : Materials) (b h : Q) (n : Z) (fcd fyd : Q).
Variable layers : list SteelLayer.

Definition kappa_ref (c : Q) : Q := eps_cu2 mat / Qmax c 1e-6.

Definition slice_center_ref (i : Z) : Q := (inject_Z i + 0.5) * (h / inject_Z n).

Definition concrete_force_ref (c y : Q) : Q :=
  sigma_c_value (kappa_ref c * (c - y)) fcd (eps_c2 mat) (eps_cu2 mat)
  * b * (h / inject_Z n).

Definition steel_force_ref (c : Q) (sl : SteelLayer) : Q :=
  sigma_s_bilineal (kappa_ref c * (c - y_mm sl)) (Es_MPa mat) fyd
  * As_mm2 sl.

Definition N_ref (c : Q) : Q :=
  Qsum (map (fun i => concrete_force_ref c (slice_center_ref i)) (range n))
  + Qsum (map (steel_force_ref c) layers).

Definition M_ref (c : Q) : Q :=
  Qsum (map (fun i => concrete_force_ref c (slice_center_ref i)
                      * slice_center_ref i) (range n))
  + Qsum (map (fun sl => steel_force_ref c sl * y_mm sl) layers).

End Reference.

(** ** The call on the object store

    [steel_layers] is a Python list of references to [SteelLayer] objects
    and [materials] a reference to a [Materials] object; the caller keeps
    these references.  The model below runs the call on an explicit store
    of objects.  The source reads attributes and list items and creates
    objects; it contains no assignment to an attribute or to a list item,
    so the programs have a primitive to load and one to allocate and none
    to write. *)

Definition loc : Type := nat.

Inductive obj : Type :=
| OSteelLayer (sl : SteelLayer)
| OList (items : list loc)
| OMaterials (m : Materials).

Definition store : Type := list obj.

Inductive prog (A : Type) : Type :=
| Ret (a : A)
| Throw (e : exn)
| Alloc (o : obj) (k : loc -> prog A)
| Load (l : loc) (k : obj -> prog A).
Arguments Ret {A} a.
Arguments Throw {A} e.
Arguments Alloc {A} o k.
Arguments Load {A} l k.

Fixpoint pbind {A B : Type} (p : prog A) (f : A -> prog B) : prog B :=
  match p with
  | Ret a => f a
  | Throw e => Throw e
  | Alloc o k => Alloc o (fun l => pbind (k l) f)
  | Load l k => Load l (fun o => pbind (k o) f)
  end.

Notation "x <~ p ;; k" := (pbind p (fun x => k))
  (at level 61, p at next level, right associativity).
Notation "' pat <~ p ;; k" := (pbind p (fun x => match x with pat => k end))
  (at level 61, pat pattern, p at next level, right associativity).

(** Running a program: a new object goes to the first free location; a
    load of a location that holds no object cannot happen in Python and is
    given the fault of a missing attribute. *)
Fixpoint run {A : Type} (p : prog A) (st : store) : store * result A :=
  match p with
  | Ret a => (st, Ok a)
  | Throw e => (st, Raise e)
  | Alloc o k => run (k (length st)) (st ++ [o])
  | Load l k =>
      match nth_error st l with
      | Some o => run (k o) st
      | None => (st, Raise AttributeError)
      end
  end.

Definition lift {A : Type} (r : result A) : prog A :=
  match r with
  | Ok a => Ret a
  | Raise e => Throw e
  end.

(** [sl.y_mm], [sl.As_mm2]: an attribute of the object behind [l]. *)
Definition layer_attr {A : Type} (f : SteelLayer -> A) (l : loc) : prog A :=
  Load l (fun o =>
    match o with
    | OSteelLayer sl => Ret (f sl)
    | _ => Throw AttributeError
    end).

(** [mat.fcd], [mat.eps_cu2], ... *)
Definition materials_attr {A : Type} (f : Materials -> A) (l : loc)
  : prog A :=
  Load l (fun o =>
    match o with
    | OMaterials m => Ret (f m)
    | _ => Throw AttributeError
    end).

(** The items of a list, as a [for] loop or a comprehension reads them. *)
Definition list_items (l : loc) : prog (list loc) :=
  Load l (fun o =>
    match o with
    | OList items => Ret items
    | _ => Throw TypeError
    end).

(** A [for] loop over references. *)
Fixpoint forP {A : Type} (body : A -> loc -> prog A) (items : list loc)
  (a : A) : prog A :=
  match items with
  | [] => Ret a
  | l :: items' => a' <~ body a l ;; forP body items' a'
  end.

(** [[SteelLayer(y_mm=map_y(sl.y_mm), As_mm2=sl.As_mm2) for sl in ...]]:
    one new object per item, then the new list. *)
Fixpoint comprehension (sign : Sign) (h_mm : Q) (items : list loc)
  : prog (list loc) :=
  match items with
  | [] => Ret []
  | l :: items' =>
      y <~ layer_attr y_mm l ;;
      a <~ layer_attr As_mm2 l ;;
      l' <~ Alloc (OSteelLayer (mkSteelLayer (map_y sign h_mm y) a)) Ret ;;
      rest <~ comprehension sign h_mm items' ;;
      Ret (l' :: rest)
  end.

Section StoreClosure.

(** [mat] and [layers] are references; [m0] is the value of the object
    behind [mat] when the call starts, from which the local variables [Es],
    [eps_c2] and [eps_cu2] are taken. *)
Variables (mat layers : loc) (m0 : Materials) (b_mm dy fcd fyd : Q).
Variable ys : list Q.

Definition section_resultants_st (c_mm : Q) : prog (Q * Q * Q) :=
  eu <~ materials_attr eps_cu2 mat ;;
  kappa <~ lift (fdiv eu (pymax c_mm 1e-6)) ;;
  '(Nc, Mc) <~ lift (foldM (concrete_body m0 b_mm dy fcd kappa c_mm) ys
                      (0, 0)) ;;
  items <~ list_items layers ;;
  '(Ns, Ms) <~ forP (fun acc l =>
                       sl <~ layer_attr (fun sl => sl) l ;;
                       Ret (steel_body m0 fyd kappa c_mm acc sl))
                    items (0, 0) ;;
  Ret (fadd Nc Ns, fadd Mc Ms, kappa).

Fixpoint expand_bracket_st (attempts : nat) (N_low c_high N_high : Q)
  : prog (Q * Q) :=
  match attempts with
  | O => Ret (c_high, N_high)
  | S k =>
      if Qltb 0 (fmul N_low N_high) then
        let c_high := fmul c_high 1.8 in
        '(N_high, _, _) <~ section_resultants_st c_high ;;
        expand_bracket_st k N_low c_high N_high
      else Ret (c_high, N_high)
  end.

Fixpoint bisect_st (tol_N : Q) (iters : nat) (c_low c_high N_low N_high : Q)
  (c : option Q) : prog (option Q) :=
  match iters with
  | O => Ret c
  | S k =>
      let c_mid := fmul 0.5 (fadd c_low c_high) in
      '(N_mid, _, _) <~ section_resultants_st c_mid ;;
      if Qltb (Qabs N_mid) tol_N then Ret (Some c_mid)
      else if Qle_bool (fmul N_low N_mid) 0
           then bisect_st tol_N k c_low c_mid N_low N_mid (Some c_mid)
           else bisect_st tol_N k c_mid c_high N_mid N_high (Some c_mid)
  end.

Definition tension_body_st (c : Q) (T_abs : Q) (l : loc) : prog Q :=
  eu <~ materials_attr eps_cu2 mat ;;
  kappa <~ lift (fdiv eu (pymax c 1e-6)) ;;
  sl <~ layer_attr (fun sl => sl) l ;;
  let Fs := steel_force m0 fyd kappa c sl in
  if Qltb Fs 0 then Ret (fadd T_abs (- Fs)) else Ret T_abs.

Definition solve_and_report_st (h_mm tol_N : Q) (itmax : Z)
  : prog (Q * Q * pyfloat) :=
  let c_low := 1e-3 in
  let c_high := fmul 3.0 h_mm in
  '(N_low, _, _) <~ section_resultants_st c_low ;;
  '(N_high, _, _) <~ section_resultants_st c_high ;;
  '(c_high, N_high) <~ expand_bracket_st 8 N_low c_high N_high ;;
  c <~ bisect_st tol_N (Z.to_nat itmax) c_low c_high N_low N_high None ;;
  match c with
  | None => Throw TypeError
  | Some c =>
      '(N_eq, M_eq, kappa) <~ section_resultants_st c ;;
      MRd_kNm <~ lift (fdiv (Qabs M_eq) 1e6) ;;
      items <~ list_items layers ;;
      T_abs <~ forP (tension_body_st c) items 0 ;;
      z_eq <~ lift (lever_arm M_eq T_abs) ;;
      Ret (MRd_kNm, c, z_eq)
  end.

End StoreClosure.

Definition mrd_fibers_rect_st (b_mm h_mm : Q) (steel_layers materials : loc)
  (nlayers_concrete : Z) (sign : Sign) (tol_N : Q) (itmax : Z)
  : prog (Q * Q * pyfloat) :=
  let mat := materials in
  m0 <~ materials_attr (fun m => m) mat ;;
  fcd <~ lift (fcd m0) ;;
  fyd <~ lift (fyd m0) ;;
  items <~ list_items steel_layers ;;
  new <~ comprehension sign h_mm items ;;
  layers <~ Alloc (OList new) Ret ;;
  dy <~ lift (fdiv_int h_mm nlayers_concrete) ;;
  let y_centers := y_centers dy nlayers_concrete in
  solve_and_report_st mat layers m0 b_mm dy fcd fyd y_centers h_mm tol_N itmax.

(** The objects of a store behind a list of references. *)
Fixpoint layers_at (st : store) (items : list loc)
  : option (list SteelLayer) :=
  match items with
  | [] => Some []
  | l :: items' =>
      match nth_error st l, layers_at st items' with
      | Some (OSteelLayer sl), Some sls => Some (sl :: sls)
      | _, _ => None
      end
  end.

(** ** Example sections *)

(** The section of the demonstration at the end of [Mrd.py]: 300 x 600,
    2 bars of 16 mm at 43 mm and 4 bars of 16 mm at 557 mm (areas rounded
    to two decimals). *)
Definition example_layers : list SteelLayer :=
  [mkSteelLayer 43 402.12; mkSteelLayer 557 804.25].

(** A heavily reinforced section with two layers in tension: [A] at
    450 mm and 8000 mm2 at 557 mm. *)
Definition two_tension_layers (A : Q) : list SteelLayer :=
  [mkSteelLayer 450 A; mkSteelLayer 557 8000].

(** A section whose only steel lies on the compressed edge. *)
Definition compression_only_layers : list SteelLayer :=
  [mkSteelLayer 0 402.12].

(** The store of the demonstration: the two layers, the list that holds
    them (location 2) and the materials (location 3). *)
Definition example_store : store :=
  [OSteelLayer (mkSteelLayer 43 402.12);
   OSteelLayer (mkSteelLayer 557 804.25);
   OList [0%nat; 1%nat];
   OMaterials default_materials].

(** Two layers, one (ordinate, area) pair each, are a reflected copy of
    one another for a sign and a height. *)
Definition reflected (sign : Sign) (h : Q) (sl sl' : SteelLayer) : Prop :=
  As_mm2 sl' = As_mm2 sl /\
  y_mm sl' == match sign with
              | positivo => y_mm sl
              | negativo => h - y_mm sl
              end.

(** ** Auxiliary definitions *)

(** [Fc] of a concrete slice, as the loop of [section_resultants]
    computes it. *)
Definition concrete_force (mat : Materials) (b_mm dy fcd kappa c_mm y : Q)
  : Q :=
  fmul (fmul (sigma_c_value (fmul kappa (fsub c_mm y)) fcd
                (eps_c2 mat) (eps_cu2 mat)) b_mm) dy.

(** [kappa] as [section_resultants] computes it. *)
Definition curvature (mat : Materials) (c_mm : Q) : Q :=
  Qred (eps_cu2 mat / pymax c_mm 1e-6).

(** [N] and [M] of [section_resultants] at a depth (it never raises, see
    [section_resultants_total]). *)
Definition N_at (mat : Materials) (b_mm dy fcd fyd : Q) (ys : list Q)
  (layers : list SteelLayer) (c_mm : Q) : Q :=
  match section_resultants mat b_mm dy fcd fyd ys layers c_mm with
  | Ok (N, _, _) => N
  | Raise _ => 0
  end.

Definition M_at (mat : Materials) (b_mm dy fcd fyd : Q) (ys : list Q)
  (layers : list SteelLayer) (c_mm : Q) : Q :=
  match section_resultants mat b_mm dy fcd fyd ys layers c_mm with
  | Ok (_, M, _) => M
  | Raise _ => 0
  end.

(** [c_high] after [k] executions of [c_high *= 1.8]. *)
Fixpoint grow (c_high : Q) (k : nat) : Q :=
  match k with
  | O => c_high
  | S k' => grow (fmul c_high 1.8) k'
  end.

(** The midpoints that the bisection computes, in order, for a resultant
    function [N]: one per iteration, until the budget is used up or a
    midpoint meets the tolerance. *)
Fixpoint midpoints (N : Q -> Q) (tol_N : Q) (iters : nat)
  (c_low c_high N_low : Q) : list Q :=
  match iters with
  | O => []
  | S k =>
      let c_mid := fmul 0.5 (fadd c_low c_high) in
      let N_mid := N c_mid in
      c_mid ::
      (if Qltb (Qabs N_mid) tol_N then []
       else if Qle_bool (fmul N_low N_mid) 0
            then midpoints N tol_N k c_low c_mid N_low
            else midpoints N tol_N k c_mid c_high N_mid)
  end.

(** The sum of the magnitudes of the steel forces that are tensile at
    depth [c]. *)
Definition tension_sum (mat : Materials) (fyd c : Q)
  (layers : list SteelLayer) : Q :=
  Qsum (map (fun sl => Qabs (steel_force mat fyd (curvature mat c) c sl))
            (filter (fun sl =>
                       Qltb (steel_force mat fyd (curvature mat c) c sl) 0)
                    layers)).

(** Two lists hold the same layers: the same (ordinate, area) pairs, as
    rational values, in any order. *)
Inductive layers_equiv : list SteelLayer -> list SteelLayer -> Prop :=
| layers_equiv_nil : layers_equiv [] []
| layers_equiv_cons (a b : SteelLayer) (l l' : list SteelLayer) :
    y_mm a == y_mm b -> As_mm2 a == As_mm2 b -> layers_equiv l l' ->
    layers_equiv (a :: l) (b :: l')
| layers_equiv_swap (a b : SteelLayer) (l : list SteelLayer) :
    layers_equiv (a :: b :: l) (b :: a :: l)
| layers_equiv_trans (l1 l2 l3 : list SteelLayer) :
    layers_equiv l1 l2 -> layers_equiv l2 l3 -> layers_equiv l1 l3.

(** * Properties *)

(** ** Basic facts about the float operations *)

Lemma fadd_eq (x y : Q) : fadd x y == x + y.
Proof. apply Qred_correct. Qed.

Lemma fsub_eq (x y : Q) : fsub x y == x - y.
Proof. apply Qred_correct. Qed.

Lemma fmul_eq (x y : Q) : fmul x y == x * y.
Proof. apply Qred_correct. Qed.

Lemma fsqr_eq (x : Q) : fsqr x == x * x.
Proof. unfold fsqr. rewrite Qred_correct. simpl. reflexivity. Qed.

#[global] Instance fadd_proper : Proper (Qeq ==> Qeq ==> Qeq) fadd.
Proof. intros x x' Hx y y' Hy. rewrite !fadd_eq, Hx, Hy. reflexivity. Qed.

#[global] Instance fsub_proper : Proper (Qeq ==> Qeq ==> Qeq) fsub.
Proof. intros x x' Hx y y' Hy. rewrite !fsub_eq, Hx, Hy. reflexivity. Qed.

#[global] Instance fmul_proper : Proper (Qeq ==> Qeq ==> Qeq) fmul.
Proof. intros x x' Hx y y' Hy. rewrite !fmul_eq, Hx, Hy. reflexivity. Qed.

#[global] Instance fsqr_proper : Proper (Qeq ==> Qeq) fsqr.
Proof. intros x x' Hx. rewrite !fsqr_eq, Hx. reflexivity. Qed.

Lemma Qltb_lt (x y : Q) : Qltb x y = true <-> x < y.
Proof.
  unfold Qltb. rewrite negb_true_iff. split.
  - intros H. apply Qnot_le_lt. intros Hle.
    apply Qle_bool_iff in Hle. congruence.
  - intros H. destruct (Qle_bool y x) eqn:E; [|reflexivity].
    apply Qle_bool_iff in E. exfalso. apply (Qlt_not_le _ _ H E).
Qed.

Lemma Qltb_ge (x y : Q) : Qltb x y = false <-> y <= x.
Proof.
  unfold Qltb. rewrite negb_false_iff. apply Qle_bool_iff.
Qed.

Lemma Qle_bool_gt (x y : Q) : Qle_bool x y = false <-> y < x.
Proof.
  rewrite <- Qltb_lt. unfold Qltb.
  destruct (Qle_bool x y); simpl; split; congruence.
Qed.

#[global] Instance Qltb_proper : Proper (Qeq ==> Qeq ==> eq) Qltb.
Proof. intros x x' Hx y y' Hy. unfold Qltb. rewrite Hx, Hy. reflexivity. Qed.

Lemma fdiv_ok (x y : Q) : ~ y == 0 -> fdiv x y = Ok (Qred (x / y)).
Proof.
  intros H. unfold fdiv. destruct (Qeq_bool y 0) eqn:E; [|reflexivity].
  apply Qeq_bool_iff in E. contradiction.
Qed.

Lemma fdiv_inv (x y v : Q) : fdiv x y = Ok v -> ~ y == 0 /\ v == x / y.
Proof.
  unfold fdiv. destruct (Qeq_bool y 0) eqn:E; [discriminate|].
  intros H. assert (Hv : v = Qred (x / y)) by congruence. split.
  - intros Hy. apply Qeq_bool_iff in Hy. congruence.
  - rewrite Hv. apply Qred_correct.
Qed.

Lemma fdiv_zero (x y : Q) : y == 0 -> fdiv x y = Raise ZeroDivisionError.
Proof.
  intros H. unfold fdiv. apply Qeq_bool_iff in H. rewrite H. reflexivity.
Qed.

Lemma float_overflow_value : float_overflow = (2 ^ 1024 - 2 ^ 970)%Z.
Proof. reflexivity. Qed.

Lemma float_overflow_above_one : 1 < inject_Z float_overflow.
Proof. reflexivity. Qed.

Lemma float_of_int_ok (n : Z) :
  (Z.abs n < float_overflow)%Z -> float_of_int n = Ok (inject_Z n).
Proof.
  intros H. unfold float_of_int. apply Z.ltb_lt in H. rewrite H. reflexivity.
Qed.

Lemma float_of_int_overflow (n : Z) :
  (float_overflow <= Z.abs n)%Z -> float_of_int n = Raise OverflowError.
Proof.
  intros H. unfold float_of_int. apply Z.ltb_ge in H. rewrite H. reflexivity.
Qed.

Lemma fdiv_int_ok (x : Q) (n : Z) :
  (Z.abs n < float_overflow)%Z ->
  fdiv_int x n = fdiv x (inject_Z n).
Proof.
  intros H. unfold fdiv_int. rewrite (float_of_int_ok n H). reflexivity.
Qed.

Lemma fdiv_int_overflow (x : Q) (n : Z) :
  (float_overflow <= Z.abs n)%Z -> fdiv_int x n = Raise OverflowError.
Proof.
  intros H. unfold fdiv_int. rewrite (float_of_int_overflow n H). reflexivity.
Qed.

(** When [x / n] gives a value, [n] has a float and is not zero, and the
    value is the quotient. *)
Lemma fdiv_int_inv (x : Q) (n : Z) (v : Q) :
  fdiv_int x n = Ok v ->
  (Z.abs n < float_overflow)%Z /\ fdiv x (inject_Z n) = Ok v.
Proof.
  intros H. destruct (Z_lt_le_dec (Z.abs n) float_overflow) as [Hlt|Hge].
  - split; [exact Hlt|]. rewrite <- (fdiv_int_ok x n Hlt). exact H.
  - rewrite (fdiv_int_overflow x n Hge) in H. discriminate.
Qed.

Lemma fpow2_ok (x : Q) :
  x ^ 2 < inject_Z float_overflow -> fpow2 x = Ok (fsqr x).
Proof.
  intros H. unfold fpow2.
  destruct (Qle_bool (inject_Z float_overflow) (x ^ 2)) eqn:E;
    [|reflexivity].
  apply Qle_bool_iff in E. exfalso. apply (Qlt_not_le _ _ H E).
Qed.

Lemma fpow2_overflow (x : Q) :
  inject_Z float_overflow <= x ^ 2 -> fpow2 x = Raise OverflowError.
Proof.
  intros H. unfold fpow2. apply Qle_bool_iff in H. rewrite H. reflexivity.
Qed.

(** The square of a number of magnitude at most one never overflows. *)
Lemma fpow2_unit (x : Q) : -1 <= x -> x <= 1 -> fpow2 x = Ok (fsqr x).
Proof.
  intros H0 H1. apply fpow2_ok.
  apply Qle_lt_trans with 1; [|apply float_overflow_above_one].
  simpl. nra.
Qed.

Lemma pymax_spec (a b : Q) : pymax a b == Qmax a b.
Proof.
  unfold pymax. destruct (Qltb a b) eqn:E.
  - apply Qltb_lt in E. symmetry. apply Q.max_r. apply Qlt_le_weak, E.
  - apply Qltb_ge in E. symmetry. apply Q.max_l. exact E.
Qed.

Lemma pymax_floor (a b : Q) : b <= pymax a b.
Proof.
  unfold pymax. destruct (Qltb a b) eqn:E.
  - apply Qle_refl.
  - apply Qltb_ge in E. exact E.
Qed.

(** Turn the boolean tests of the code into order facts and strip the
    normalisation from the arithmetic. *)
Ltac bool_facts :=
  repeat match goal with
  | H : Qle_bool _ _ = true |- _ => apply Qle_bool_iff in H
  | H : Qle_bool _ _ = false |- _ => apply Qle_bool_gt in H
  | H : Qltb _ _ = true |- _ => apply Qltb_lt in H
  | H : Qltb _ _ = false |- _ => apply Qltb_ge in H
  end.

Ltac fnorm_goal :=
  rewrite ?fadd_eq, ?fsub_eq, ?fmul_eq, ?fsqr_eq, ?Qred_correct.

Ltac fnorm_in H :=
  rewrite ?fadd_eq, ?fsub_eq, ?fmul_eq, ?fsqr_eq, ?Qred_correct in H.

(** Only order facts and [==] are rewritten: the float operations are
    morphisms for [==], not for Leibniz equality. *)
Ltac fnorm :=
  repeat match goal with
  | H : _ <= _ |- _ => progress (fnorm_in H)
  | H : _ < _ |- _ => progress (fnorm_in H)
  | H : _ == _ |- _ => progress (fnorm_in H)
  | |- _ <= _ => progress fnorm_goal
  | |- _ < _ => progress fnorm_goal
  | |- _ == _ => progress fnorm_goal
  end.

(** ** Material laws *)

Lemma sigma_c_ec2_cases (e fcd e2 eu : Q) :
  (e <= 0 /\ sigma_c_ec2 e fcd e2 eu = Ok 0) \/
  (0 < e /\ e <= e2 /\
   sigma_c_ec2 e fcd e2 eu
   = Ok (fmul fcd (fsub 1 (fsqr (fsub 1 (Qred (e / e2))))))) \/
  (0 < e /\ e2 < e /\ e <= eu /\ sigma_c_ec2 e fcd e2 eu = Ok fcd) \/
  (0 < e /\ e2 < e /\ eu < e /\ sigma_c_ec2 e fcd e2 eu = Ok 0).
Proof.
  unfold sigma_c_ec2.
  destruct (Qle_bool e 0) eqn:E0; bool_facts; [left; split; auto|].
  destruct (Qle_bool e e2) eqn:E1; bool_facts.
  - right; left. rewrite fdiv_ok by lra. cbn [bind].
    assert (Ha : 0 < e / e2) by (apply Qlt_shift_div_l; lra).
    assert (Hb : e / e2 <= 1) by (apply Qle_shift_div_r; lra).
    rewrite fpow2_unit by (rewrite fsub_eq, Qred_correct; lra).
    repeat split; auto; reflexivity.
  - destruct (Qle_bool e eu) eqn:E2; bool_facts.
    + right; right; left. auto.
    + right; right; right. auto.
Qed.

(** The division [eps_c / eps_c2] is only reached with [eps_c2 > 0]. *)
Lemma sigma_c_ec2_total (e fcd e2 eu : Q) :
  exists v, sigma_c_ec2 e fcd e2 eu = Ok v.
Proof.
  destruct (sigma_c_ec2_cases e fcd e2 eu)
    as [[_ H]|[(_ & _ & H)|[(_ & _ & _ & H)|(_ & _ & _ & H)]]];
    rewrite H; eauto.
Qed.

Lemma parabola_value (e fcd e2 : Q) :
  fmul fcd (fsub 1 (fsqr (fsub 1 (Qred (e / e2)))))
  == fcd * (1 - (1 - e / e2) ^ 2).
Proof.
  fnorm. simpl. reflexivity.
Qed.

Lemma parabola_range (e e2 : Q) :
  0 < e -> e < e2 ->
  0 < 1 - (1 - e / e2) ^ 2 /\ 1 - (1 - e / e2) ^ 2 < 1.
Proof.
  intros H0 H1.
  assert (Ha : 0 < e / e2) by (apply Qlt_shift_div_l; lra).
  assert (Hb : e / e2 < 1) by (apply Qlt_shift_div_r; lra).
  set (eta := e / e2) in *. simpl. split; nra.
Qed.

(** C2 (amended).  For a positive design strength and
    [0 < eps_c2 < eps_cu2], the value returned by [sigma_c_ec2] is the one
    the piecewise definition gives: 0 for strain <= 0, the parabola on
    (0, eps_c2], fcd on (eps_c2, eps_cu2] and 0 beyond eps_cu2.  It equals
    fcd at eps_c2 and at eps_cu2, lies between 0 and fcd, both included,
    inside (0, eps_c2), is never negative and is zero outside
    (0, eps_cu2]. *)
Theorem sigma_c_ec2_piecewise (fcd e2 eu strain : Q) :
  0 < fcd -> 0 < e2 -> e2 < eu ->
  exists v,
    sigma_c_ec2 strain fcd e2 eu = Ok v /\
    (exists w, sigma_c_piecewise fcd e2 eu strain w) /\
    (forall w, sigma_c_piecewise fcd e2 eu strain w -> v == w) /\
    (strain == e2 -> v == fcd) /\
    (strain == eu -> v == fcd) /\
    (0 < strain -> strain < e2 -> 0 <= v /\ v <= fcd) /\
    0 <= v /\
    (strain <= 0 \/ eu < strain -> v == 0).
Proof.
  intros Hf H2 Hu.
  destruct (sigma_c_ec2_cases strain fcd e2 eu)
    as [[H0 H]|[(H0 & H1 & H)|[(H0 & H1 & H3 & H)|(H0 & H1 & H3 & H)]]];
    rewrite H; eexists; (split; [reflexivity|]).
  - split; [exists 0; constructor; assumption|].
    repeat split; try lra.
    intros w Hw; inversion Hw; subst; first [lra | reflexivity].
  - rewrite parabola_value.
    assert (Hone : strain == e2 -> fcd * (1 - (1 - strain / e2) ^ 2) == fcd).
    { intros ->. simpl. field. lra. }
    split; [eexists; apply pw_parabola; assumption|].
    split; [intros w Hw; inversion Hw; subst;
            first [lra | apply parabola_value]|].
    split; [exact Hone|].
    split; [intros; lra|].
    split; [intros _ Hlt; destruct (parabola_range strain e2 H0 Hlt); nra|].
    split; [|intros [?|?]; lra].
    destruct (Qlt_le_dec strain e2) as [Hlt|Hge].
    + destruct (parabola_range strain e2 H0 Hlt). nra.
    + rewrite Hone by lra. lra.
  - split; [exists fcd; apply pw_plateau; assumption|].
    repeat split; try lra.
    intros w Hw; inversion Hw; subst; first [lra | reflexivity].
  - split; [exists 0; apply pw_beyond; assumption|].
    repeat split; try lra.
    intros w Hw; inversion Hw; subst; first [lra | reflexivity].
Qed.

Lemma sigma_c_ec2_piecewise_witness :
  exists v,
    sigma_c_ec2 0.001 17 0.002 0.0035 = Ok v /\
    (exists w, sigma_c_piecewise 17 0.002 0.0035 0.001 w) /\
    (forall w, sigma_c_piecewise 17 0.002 0.0035 0.001 w -> v == w) /\
    (0.001 == 0.002 -> v == 17) /\
    (0.001 == 0.0035 -> v == 17) /\
    (0 < 0.001 -> 0.001 < 0.002 -> 0 <= v /\ v <= 17) /\
    0 <= v /\
    (0.001 <= 0 \/ 0.0035 < 0.001 -> v == 0).
Proof.
  apply (sigma_c_ec2_piecewise 17 0.002 0.0035 0.001); reflexivity.
Defined.

(** In exact arithmetic the two bounds are strict inside (0, eps_c2); it
    is the rounding of the parabola that reaches them, as the
    counterexample below shows. *)
Lemma sigma_c_ec2_strict_without_rounding (fcd e2 eu strain : Q) :
  0 < fcd -> 0 < strain -> strain < e2 ->
  exists v, sigma_c_ec2 strain fcd e2 eu = Ok v /\ 0 < v /\ v < fcd.
Proof.
  intros Hf H0 H1.
  destruct (sigma_c_ec2_cases strain fcd e2 eu)
    as [[G0 H]|[(G0 & G1 & H)|[(G0 & G1 & G3 & H)|(G0 & G1 & G3 & H)]]];
    try (exfalso; lra).
  rewrite H. eexists. split; [reflexivity|]. rewrite parabola_value.
  destruct (parabola_range strain e2 H0 H1). split; nra.
Qed.

#[local] Set Warnings "-inexact-float".

(** C2 as stated fails on binary64 floats, for fcd = 17, eps_c2 = 0.002
    and eps_cu2 = 0.0035: the strain 1e-20 lies inside (0, eps_c2) and the
    stress returned is 0.0, because [1.0 - eta] rounds to 1.0; the strain
    [0.002 * (1 - 1e-9)] lies inside (0, eps_c2) and the stress returned is
    fcd, because [1.0 - (1.0 - eta)**2] rounds to 1.0, whatever the last
    bit of the square.  Each decimal literal stands for the nearest
    binary64 number, as in Python. *)
Lemma sigma_c_ec2_rounding_counterexample :
  ((0 <? 17) = true /\ (0 <? 0.002) = true /\
   (0.002 <? 0.0035) = true)%float /\
  ((0 <? 1e-20) = true /\ (1e-20 <? 0.002) = true /\
   Binary64.sigma_c_ec2 1e-20 17 0.002 0.0035 = Ok 0)%float /\
  ((0 <? 0.002 * (1 - 1e-9)) = true /\
   (0.002 * (1 - 1e-9) <? 0.002) = true /\
   Binary64.sigma_c_ec2 (0.002 * (1 - 1e-9)) 17 0.002 0.0035
   = Ok 17)%float.
Proof.
  split; [|split];
    (split; [reflexivity|]); (split; [reflexivity|]);
    vm_compute; reflexivity.
Qed.

Lemma sigma_s_bilineal_cases (e Es fyd : Q) :
  (fyd < Es * e /\ sigma_s_bilineal e Es fyd = fyd) \/
  (Es * e <= fyd /\ Es * e < - fyd /\ sigma_s_bilineal e Es fyd = - fyd) \/
  (Es * e <= fyd /\ - fyd <= Es * e /\
   sigma_s_bilineal e Es fyd = fmul Es e).
Proof.
  unfold sigma_s_bilineal.
  destruct (Qltb fyd (fmul Es e)) eqn:E1; bool_facts; fnorm; auto.
  destruct (Qltb (fmul Es e) (- fyd)) eqn:E2; bool_facts; fnorm; auto.
Qed.

(** C3.  For a yield strength [fyd >= 0], [sigma_s_bilineal] is
    [Es * strain] clipped to [[-fyd, +fyd]]: it equals [Es * strain]
    whenever [|Es * strain| <= fyd], its magnitude never exceeds [fyd], and
    it is an odd function of the strain. *)
Theorem sigma_s_bilineal_clip (Es fyd strain : Q) :
  0 <= fyd ->
  sigma_s_bilineal strain Es fyd == clip_steel strain Es fyd /\
  (Qabs (Es * strain) <= fyd ->
   sigma_s_bilineal strain Es fyd == Es * strain) /\
  Qabs (sigma_s_bilineal strain Es fyd) <= fyd /\
  sigma_s_bilineal (- strain) Es fyd == - sigma_s_bilineal strain Es fyd.
Proof.
  intros Hf.
  assert (Hneg : Es * - strain == - (Es * strain)) by ring.
  assert (Hm : fmul Es strain == Es * strain) by apply fmul_eq.
  assert (Hm' : fmul Es (- strain) == - (Es * strain))
    by (rewrite fmul_eq; exact Hneg).
  unfold clip_steel.
  destruct (Q.min_spec fyd (Es * strain)) as [[Hc Hmin]|[Hc Hmin]];
    rewrite Hmin;
    match goal with
    | |- _ == Qmax ?a ?b /\ _ =>
      destruct (Q.max_spec a b) as [[Hd Hmax]|[Hd Hmax]]; rewrite Hmax
    end;
    destruct (sigma_s_bilineal_cases strain Es fyd)
      as [[H1 H]|[(H1 & H2 & H)|(H1 & H2 & H)]]; rewrite H; clear H;
    destruct (sigma_s_bilineal_cases (- strain) Es fyd)
      as [[G1 G]|[(G1 & G2 & G)|(G1 & G2 & G)]]; rewrite G; clear G;
    try rewrite Hneg in G1; try rewrite Hneg in G2;
    try (exfalso; lra);
    (split; [lra|]);
    (split; [intros Ha; apply Qabs_Qle_condition in Ha; lra|]);
    (split; [apply Qabs_Qle_condition; lra|lra]).
Qed.

Lemma sigma_s_bilineal_clip_witness :
  sigma_s_bilineal 0.001 200000 400 == clip_steel 0.001 200000 400 /\
  (Qabs (200000 * 0.001) <= 400 ->
   sigma_s_bilineal 0.001 200000 400 == 200000 * 0.001) /\
  Qabs (sigma_s_bilineal 0.001 200000 400) <= 400 /\
  sigma_s_bilineal (- 0.001) 200000 400
  == - sigma_s_bilineal 0.001 200000 400.
Proof.
  apply (sigma_s_bilineal_clip 200000 400 0.001). discriminate.
Defined.

(** ** The resultant integrator *)

#[global] Instance sigma_s_bilineal_proper :
  Proper (Qeq ==> Qeq ==> Qeq ==> Qeq) sigma_s_bilineal.
Proof.
  intros e e' He Es Es' HEs f f' Hf. unfold sigma_s_bilineal.
  assert (Hs : fmul Es e == fmul Es' e') by (rewrite HEs, He; reflexivity).
  assert (E1 : Qltb f (fmul Es e) = Qltb f' (fmul Es' e'))
    by (rewrite Hs, Hf; reflexivity).
  assert (E2 : Qltb (fmul Es e) (- f) = Qltb (fmul Es' e') (- f'))
    by (rewrite Hs, Hf; reflexivity).
  rewrite E1, E2.
  destruct (Qltb f' (fmul Es' e')); [exact Hf|].
  destruct (Qltb (fmul Es' e') (- f')); [rewrite Hf; reflexivity|exact Hs].
Qed.

Lemma sigma_c_value_cases (e fcd e2 eu : Q) :
  (e <= 0 /\ sigma_c_value e fcd e2 eu == 0) \/
  (0 < e /\ e <= e2 /\
   sigma_c_value e fcd e2 eu == fcd * (1 - (1 - e / e2) ^ 2)) \/
  (0 < e /\ e2 < e /\ e <= eu /\ sigma_c_value e fcd e2 eu == fcd) \/
  (0 < e /\ e2 < e /\ eu < e /\ sigma_c_value e fcd e2 eu == 0).
Proof.
  unfold sigma_c_value.
  destruct (sigma_c_ec2_cases e fcd e2 eu)
    as [[H0 H]|[(H0 & H1 & H)|[(H0 & H1 & H3 & H)|(H0 & H1 & H3 & H)]]];
    rewrite H.
  - left. split; [assumption|reflexivity].
  - right; left.
    split; [assumption|split; [assumption|apply parabola_value]].
  - right; right; left.
    split; [assumption|split; [assumption|split; [assumption|reflexivity]]].
  - right; right; right.
    split; [assumption|split; [assumption|split; [assumption|reflexivity]]].
Qed.

#[global] Instance sigma_c_value_proper :
  Proper (Qeq ==> Qeq ==> Qeq ==> Qeq ==> Qeq) sigma_c_value.
Proof.
  intros e e' He f f' Hf e2 e2' H2 eu eu' Hu.
  destruct (sigma_c_value_cases e f e2 eu)
    as [[H0 H]|[(H0 & H1 & H)|[(H0 & H1 & H3 & H)|(H0 & H1 & H3 & H)]]];
  destruct (sigma_c_value_cases e' f' e2' eu')
    as [[G0 G]|[(G0 & G1 & G)|[(G0 & G1 & G3 & G)|(G0 & G1 & G3 & G)]]];
  rewrite H, G; try (exfalso; lra); try reflexivity; try assumption.
  rewrite He, Hf, H2. reflexivity.
Qed.

Lemma sigma_c_ec2_value (e fcd e2 eu : Q) :
  sigma_c_ec2 e fcd e2 eu = Ok (sigma_c_value e fcd e2 eu).
Proof.
  unfold sigma_c_value.
  destruct (sigma_c_ec2_total e fcd e2 eu) as [v ->]. reflexivity.
Qed.

Lemma Qsum_map_ext {A : Type} (f g : A -> Q) (l : list A) :
  (forall x, In x l -> f x == g x) ->
  Qsum (map f l) == Qsum (map g l).
Proof.
  induction l as [|a l IH]; intros H; simpl; [reflexivity|].
  rewrite (H a) by (left; reflexivity).
  rewrite IH by (intros x Hx; apply H; right; exact Hx).
  reflexivity.
Qed.

Lemma concrete_loop (mat : Materials) (b dy fcd kappa c : Q) (ys : list Q) :
  forall Nc Mc, exists Nc' Mc',
    foldM (concrete_body mat b dy fcd kappa c) ys (Nc, Mc) = Ok (Nc', Mc') /\
    Nc' == Nc + Qsum (map (concrete_force mat b dy fcd kappa c) ys) /\
    Mc' == Mc + Qsum (map (fun y => concrete_force mat b dy fcd kappa c y * y)
                          ys).
Proof.
  induction ys as [|y ys IH]; intros Nc Mc; simpl.
  - exists Nc, Mc. split; [reflexivity|]. split; ring.
  - unfold concrete_body at 1. rewrite sigma_c_ec2_value. simpl.
    fold (concrete_force mat b dy fcd kappa c y).
    destruct (IH (fadd Nc (concrete_force mat b dy fcd kappa c y))
                 (fadd Mc (fmul (concrete_force mat b dy fcd kappa c y)
                                (fadd y 0))))
      as (Nc' & Mc' & Hrun & HN & HM).
    exists Nc', Mc'. split; [exact Hrun|].
    split.
    + rewrite HN, fadd_eq. ring.
    + rewrite HM. fnorm_goal. ring.
Qed.

Lemma steel_loop (mat : Materials) (fyd kappa c : Q)
  (layers : list SteelLayer) :
  forall Ns Ms,
    fst (fold_left (steel_body mat fyd kappa c) layers (Ns, Ms))
    == Ns + Qsum (map (steel_force mat fyd kappa c) layers) /\
    snd (fold_left (steel_body mat fyd kappa c) layers (Ns, Ms))
    == Ms + Qsum (map (fun sl => steel_force mat fyd kappa c sl * y_mm sl)
                      layers).
Proof.
  induction layers as [|sl layers IH]; intros Ns Ms; simpl.
  - split; ring.
  - destruct (IH (fadd Ns (steel_force mat fyd kappa c sl))
                 (fadd Ms (fmul (steel_force mat fyd kappa c sl) (y_mm sl))))
      as [HN HM].
    split.
    + rewrite HN, fadd_eq. ring.
    + rewrite HM, fadd_eq, fmul_eq. ring.
Qed.

Lemma pymax_nonzero (c : Q) : ~ pymax c 1e-6 == 0.
Proof.
  intros H. pose proof (pymax_floor c 1e-6) as Hf. rewrite H in Hf.
  revert Hf. apply Qlt_not_le. reflexivity.
Qed.

(** The curvature division never fails and the two loops add up the
    slice and layer contributions. *)
Lemma section_resultants_sums (mat : Materials) (b dy fcd fyd : Q)
  (ys : list Q) (layers : list SteelLayer) (c : Q) :
  exists N M,
    section_resultants mat b dy fcd fyd ys layers c
    = Ok (N, M, curvature mat c) /\
    N == Qsum (map (concrete_force mat b dy fcd (curvature mat c) c) ys)
         + Qsum (map (steel_force mat fyd (curvature mat c) c) layers) /\
    M == Qsum (map (fun y => concrete_force mat b dy fcd (curvature mat c) c y
                             * y) ys)
         + Qsum (map (fun sl => steel_force mat fyd (curvature mat c) c sl
                                * y_mm sl) layers).
Proof.
  unfold section_resultants.
  rewrite (fdiv_ok _ _ (pymax_nonzero c)). fold (curvature mat c). simpl.
  destruct (concrete_loop mat b dy fcd (curvature mat c) c ys 0 0)
    as (Nc & Mc & Hrun & HN & HM).
  rewrite Hrun. simpl.
  destruct (steel_loop mat fyd (curvature mat c) c layers 0 0) as [HNs HMs].
  destruct (fold_left (steel_body mat fyd (curvature mat c) c) layers (0, 0))
    as [Ns Ms].
  simpl in HNs, HMs.
  exists (fadd Nc Ns), (fadd Mc Ms). split; [reflexivity|].
  split; rewrite fadd_eq.
  - rewrite HN, HNs. ring.
  - rewrite HM, HMs. ring.
Qed.

Lemma section_resultants_total (mat : Materials) (b dy fcd fyd : Q)
  (ys : list Q) (layers : list SteelLayer) (c : Q) :
  exists N M,
    section_resultants mat b dy fcd fyd ys layers c
    = Ok (N, M, curvature mat c).
Proof.
  destruct (section_resultants_sums mat b dy fcd fyd ys layers c)
    as (N & M & H & _). eauto.
Qed.

Lemma inject_Z_nonzero (n : Z) : (n <> 0)%Z -> ~ inject_Z n == 0.
Proof.
  intros Hn H. unfold Qeq, inject_Z in H. simpl in H. lia.
Qed.

Lemma curvature_ref (mat : Materials) (c : Q) :
  curvature mat c == kappa_ref mat c.
Proof.
  unfold curvature, kappa_ref. rewrite Qred_correct, pymax_spec. reflexivity.
Qed.

Lemma y_centers_length (dy : Q) (n : Z) :
  length (y_centers dy n) = Z.to_nat n.
Proof.
  unfold y_centers, range. rewrite !length_map, length_seq. reflexivity.
Qed.

Lemma y_centers_nth (dy : Q) (n : Z) (i : nat) :
  (i < Z.to_nat n)%nat ->
  nth i (y_centers dy n) 0 = fmul (fadd (inject_Z (Z.of_nat i)) 0.5) dy.
Proof.
  intros Hi. unfold y_centers, range. rewrite map_map.
  rewrite (nth_indep _ 0 (fmul (fadd (inject_Z (Z.of_nat 0)) 0.5) dy))
    by (rewrite length_map, length_seq; exact Hi).
  rewrite (map_nth (fun x => fmul (fadd (inject_Z (Z.of_nat x)) 0.5) dy)).
  rewrite seq_nth by exact Hi. reflexivity.
Qed.

Lemma concrete_force_ref_eq (mat : Materials) (b h : Q) (n : Z)
  (fcd dy c : Q) (i : Z) :
  dy == h / inject_Z n ->
  concrete_force mat b dy fcd (curvature mat c) c
    (fmul (fadd (inject_Z i) 0.5) dy)
  == concrete_force_ref mat b h n fcd c (slice_center_ref h n i).
Proof.
  intros Hdy. unfold concrete_force, concrete_force_ref, slice_center_ref.
  fnorm_goal. rewrite curvature_ref, Hdy. reflexivity.
Qed.

Lemma steel_force_ref_eq (mat : Materials) (fyd c : Q) (sl : SteelLayer) :
  steel_force mat fyd (curvature mat c) c sl == steel_force_ref mat fyd c sl.
Proof.
  unfold steel_force, steel_force_ref. fnorm_goal.
  rewrite curvature_ref. reflexivity.
Qed.

(** C4.  With a slice count [n >= 1] the concrete is cut into exactly [n]
    slices of thickness [h / n] centred at [(i + 0.5) * h / n]; for every
    trial depth [c], [section_resultants] returns the curvature
    [eps_cu2 / max(c, 1e-6)] and the N and M of the reference definition:
    the sums over slices and layers of the forces (stress times area at
    strain [kappa * (c - y)]) and of the forces times [y]. *)
Theorem section_resultants_reference (mat : Materials) (b h fcd fyd : Q)
  (layers : list SteelLayer) (n : Z) (c : Q) :
  (1 <= n)%Z ->
  exists dy N M kappa,
    fdiv h (inject_Z n) = Ok dy /\
    dy == h / inject_Z n /\
    length (y_centers dy n) = Z.to_nat n /\
    (forall i, (i < Z.to_nat n)%nat ->
       nth i (y_centers dy n) 0 == slice_center_ref h n (Z.of_nat i)) /\
    section_resultants mat b dy fcd fyd (y_centers dy n) layers c
    = Ok (N, M, kappa) /\
    kappa == kappa_ref mat c /\
    N == N_ref mat b h n fcd fyd layers c /\
    M == M_ref mat b h n fcd fyd layers c.
Proof.
  intros Hn.
  assert (Hnz : ~ inject_Z n == 0) by (apply inject_Z_nonzero; lia).
  assert (Hdy : Qred (h / inject_Z n) == h / inject_Z n)
    by apply Qred_correct.
  destruct (section_resultants_sums mat b (Qred (h / inject_Z n)) fcd fyd
              (y_centers (Qred (h / inject_Z n)) n) layers c)
    as (N & M & Hrun & HN & HM).
  exists (Qred (h / inject_Z n)), N, M, (curvature mat c).
  split; [apply fdiv_ok; exact Hnz|].
  split; [exact Hdy|].
  split; [apply y_centers_length|].
  split.
  { intros i Hi. rewrite (y_centers_nth _ _ _ Hi).
    unfold slice_center_ref. fnorm_goal. reflexivity. }
  split; [exact Hrun|].
  split; [apply curvature_ref|].
  unfold N_ref, M_ref. rewrite HN, HM. unfold y_centers. rewrite !map_map.
  split; apply Qplus_comp; apply Qsum_map_ext; intros x _.
  - apply concrete_force_ref_eq, Hdy.
  - apply steel_force_ref_eq.
  - rewrite concrete_force_ref_eq by exact Hdy.
    unfold slice_center_ref at 2. fnorm_goal. reflexivity.
  - rewrite steel_force_ref_eq. reflexivity.
Qed.

Lemma section_resultants_reference_witness :
  exists dy N M kappa,
    fdiv 600 (inject_Z 40) = Ok dy /\
    dy == 600 / inject_Z 40 /\
    length (y_centers dy 40) = Z.to_nat 40 /\
    (forall i, (i < Z.to_nat 40)%nat ->
       nth i (y_centers dy 40) 0 == slice_center_ref 600 40 (Z.of_nat i)) /\
    section_resultants default_materials 300 dy 17 (10000 # 23)
      (y_centers dy 40) example_layers 100 = Ok (N, M, kappa) /\
    kappa == kappa_ref default_materials 100 /\
    N == N_ref default_materials 300 600 40 17 (10000 # 23)
           example_layers 100 /\
    M == M_ref default_materials 300 600 40 17 (10000 # 23)
           example_layers 100.
Proof.
  apply (section_resultants_reference default_materials 300 600 17
           (10000 # 23) example_layers 40 100).
  lia.
Defined.

(** The resultants of the example section at a depth of 100 mm, with
    four slices: one slice and the upper layer are compressed, the lower
    layer has yielded in tension. *)
Example section_resultants_run :
  section_resultants default_materials 300 150 17 (10000 # 23)
    (y_centers 150 4) example_layers 100
  = Ok (6140469817 # 18400, -2735123297869 # 18400, 7 # 200000).
Proof. vm_compute. reflexivity. Qed.

(** ** The neutral-axis solver *)

Lemma last_cons {A : Type} (l : list A) (a d : A) :
  last (a :: l) d = last l a.
Proof.
  revert a d. induction l as [|x l IH]; intros a d; [reflexivity|].
  change (last (a :: x :: l) d) with (last (x :: l) d).
  rewrite (IH x d). symmetry. apply IH.
Qed.

Section Solver.

Variables (mat : Materials) (b dy fcd fyd : Q).
Variables (ys : list Q) (layers : list SteelLayer).

Local Abbreviation sr := (section_resultants mat b dy fcd fyd ys layers).
Local Abbreviation N := (N_at mat b dy fcd fyd ys layers).
Local Abbreviation M := (M_at mat b dy fcd fyd ys layers).

Lemma sr_eq (c : Q) : sr c = Ok (N c, M c, curvature mat c).
Proof.
  unfold N_at, M_at.
  destruct (section_resultants_total mat b dy fcd fyd ys layers c)
    as (n & m & ->). reflexivity.
Qed.

Lemma expand_bracket_spec (attempts : nat) (N_low : Q) :
  forall c_high, exists k,
    (k <= attempts)%nat /\
    expand_bracket mat b dy fcd fyd ys layers attempts N_low c_high
      (N c_high)
    = Ok (grow c_high k, N (grow c_high k)) /\
    (forall j, (j < k)%nat -> 0 < N_low * N (grow c_high j)) /\
    (k = attempts \/ N_low * N (grow c_high k) <= 0).
Proof.
  induction attempts as [|a IH]; intros c_high; simpl.
  - exists 0%nat. split; [lia|]. split; [reflexivity|].
    split; [intros j Hj; lia|left; reflexivity].
  - destruct (Qltb 0 (fmul N_low (N c_high))) eqn:E; bool_facts; fnorm.
    + rewrite sr_eq. simpl.
      destruct (IH (fmul c_high 1.8)) as (k & Hk & Hrun & Hlt & Hend).
      exists (S k). split; [lia|]. split; [exact Hrun|].
      split.
      * intros [|j] Hj; simpl; [exact E|apply Hlt; lia].
      * destruct Hend as [->|Hend]; [left; reflexivity|right; exact Hend].
    + exists 0%nat. split; [lia|]. split; [reflexivity|].
      split; [intros j Hj; lia|right; exact E].
Qed.

Lemma grow_value (c_high : Q) (k : nat) :
  grow c_high k == c_high * 1.8 ^ Z.of_nat k.
Proof.
  revert c_high. induction k as [|k IH]; intros c_high.
  - simpl. ring.
  - change (grow c_high (S k)) with (grow (fmul c_high 1.8) k).
    rewrite IH, fmul_eq, Nat2Z.inj_succ. unfold Z.succ.
    rewrite Qpower_plus' by lia.
    change (1.8 ^ 1) with 1.8. ring.
Qed.

Lemma bisect_returns (tol : Q) (iters : nat) :
  forall c_low c_high N_low N_high c0,
    (iters = 0%nat -> c0 <> None) ->
    exists c, bisect mat b dy fcd fyd ys layers tol iters
                c_low c_high N_low N_high c0 = Ok (Some c).
Proof.
  induction iters as [|k IH]; intros c_low c_high N_low N_high c0 Hc0; simpl.
  - destruct c0 as [c|]; [eauto|exfalso; apply Hc0; reflexivity].
  - rewrite sr_eq. simpl.
    destruct (Qltb _ tol); [eauto|].
    destruct (Qle_bool _ 0); apply IH; intros _; discriminate.
Qed.

(** The variable [c] always holds the last midpoint computed. *)
Lemma bisect_last_midpoint (tol : Q) (iters : nat) :
  forall c_low c_high N_low N_high c0 c,
    bisect mat b dy fcd fyd ys layers tol iters c_low c_high N_low N_high c0
    = Ok c ->
    c = match midpoints N tol iters c_low c_high N_low with
        | [] => c0
        | m :: ms => Some (last ms m)
        end.
Proof.
  induction iters as [|k IH]; intros c_low c_high N_low N_high c0 c; simpl.
  - intros H. congruence.
  - rewrite sr_eq. simpl.
    destruct (Qltb (Qabs (N _)) tol);
      [intros H; injection H as <-; reflexivity|].
    destruct (Qle_bool _ 0); intros H; apply IH in H; rewrite H;
      match goal with
      | |- context [midpoints ?a ?b ?c ?d ?e ?f] =>
        destruct (midpoints a b c d e f);
          [reflexivity|rewrite last_cons; reflexivity]
      end.
Qed.


(** The loop for [T_abs] adds the magnitudes of the tensile steel forces. *)
Lemma tension_loop (c : Q) :
  forall T0, exists T,
    foldM (tension_body mat fyd c) layers T0 = Ok T /\
    T == T0 + tension_sum mat fyd c layers.
Proof.
  unfold tension_sum.
  induction layers as [|sl l IH]; intros T0; simpl.
  - exists T0. split; [reflexivity|]. unfold Qsum. simpl. ring.
  - unfold tension_body at 1.
    rewrite (fdiv_ok _ _ (pymax_nonzero c)). fold (curvature mat c). simpl.
    destruct (Qltb (steel_force mat fyd (curvature mat c) c sl) 0) eqn:E;
      bool_facts.
    + destruct (IH (fadd T0 (- steel_force mat fyd (curvature mat c) c sl)))
        as (T & Hrun & HT).
      exists T. split; [exact Hrun|].
      rewrite HT, fadd_eq. simpl.
      rewrite (Qabs_neg _ (Qlt_le_weak _ _ E)). ring.
    + destruct (IH T0) as (T & Hrun & HT). exists T. split; assumption.
Qed.

Lemma tension_sum_nonneg (c : Q) : 0 <= tension_sum mat fyd c layers.
Proof.
  unfold tension_sum.
  induction (filter _ layers) as [|sl l IH]; simpl; [apply Qle_refl|].
  pose proof (Qabs_nonneg (steel_force mat fyd (curvature mat c) c sl)).
  lra.
Qed.

Lemma lever_arm_value (M_eq T : Q) :
  (1e-9 < T /\ lever_arm M_eq T = Ok (Finite (Qred (Qabs M_eq / T)))) \/
  (T <= 1e-9 /\ lever_arm M_eq T = Ok NaN).
Proof.
  unfold lever_arm. destruct (Qltb 1e-9 T) eqn:E; bool_facts.
  - left. split; [exact E|]. rewrite fdiv_ok; [reflexivity|].
    intros H0. rewrite H0 in E. revert E. apply Qle_not_lt. discriminate.
  - right. split; [exact E|reflexivity].
Qed.

(** What one call computes once [fcd], [fyd] and [dy] are known: the
    bracket after [k <= 8] expansions, the depth [c] left by the bisection
    and the three results. *)
Lemma solve_and_report_run (h tol : Q) (itmax : Z) :
  (1 <= itmax)%Z ->
  exists k c T z,
    (k <= 8)%nat /\
    (forall j, (j < k)%nat -> 0 < N 1e-3 * N (grow (fmul 3.0 h) j)) /\
    (k = 8%nat \/ N 1e-3 * N (grow (fmul 3.0 h) k) <= 0) /\
    bisect mat b dy fcd fyd ys layers tol (Z.to_nat itmax)
      1e-3 (grow (fmul 3.0 h) k) (N 1e-3) (N (grow (fmul 3.0 h) k)) None
    = Ok (Some c) /\
    foldM (tension_body mat fyd c) layers 0 = Ok T /\
    T == tension_sum mat fyd c layers /\
    lever_arm (M c) T = Ok z /\
    solve_and_report mat b dy fcd fyd ys layers h tol itmax
    = Ok (Qred (Qabs (M c) / 1e6), c, z).
Proof.
  intros Hit. unfold solve_and_report.
  rewrite (sr_eq 1e-3). cbn [bind].
  rewrite (sr_eq (fmul 3.0 h)). cbn [bind].
  destruct (expand_bracket_spec 8 (N 1e-3) (fmul 3.0 h))
    as (k & Hk & Hexp & Hlt & Hend).
  rewrite Hexp. cbn [bind].
  destruct (bisect_returns tol (Z.to_nat itmax) 1e-3 (grow (fmul 3.0 h) k)
              (N 1e-3) (N (grow (fmul 3.0 h) k)) None) as [c Hc]; [lia|].
  rewrite Hc. cbn [bind]. rewrite sr_eq. cbn [bind].
  destruct (tension_loop c 0) as (T & HT & HTv).
  assert (Hz : exists z, lever_arm (M c) T = Ok z).
  { destruct (lever_arm_value (M c) T) as [[_ H]|[_ H]]; rewrite H; eauto. }
  destruct Hz as [z Hz].
  exists k, c, T, z.
  repeat (split; [assumption|]).
  split; [rewrite HTv; ring|].
  split; [exact Hz|].
  rewrite fdiv_ok by discriminate. cbn [bind]. rewrite HT. cbn [bind].
  rewrite Hz. reflexivity.
Qed.

End Solver.

(** The stopping rule of the loop, on the list of midpoints. *)
Lemma midpoints_nonempty (N : Q -> Q) (tol : Q) (iters : nat)
  (c_low c_high N_low : Q) :
  midpoints N tol iters c_low c_high N_low = [] -> iters = 0%nat.
Proof. destruct iters; [reflexivity|discriminate]. Qed.

Lemma midpoints_stop (N : Q -> Q) (tol : Q) (iters : nat) :
  forall c_low c_high N_low,
    Forall (fun m => tol <= Qabs (N m))
      (removelast (midpoints N tol iters c_low c_high N_low)) /\
    (midpoints N tol iters c_low c_high N_low <> [] ->
     Qabs (N (last (midpoints N tol iters c_low c_high N_low) 0)) < tol \/
     length (midpoints N tol iters c_low c_high N_low) = iters) /\
    (tol <= 0 ->
     length (midpoints N tol iters c_low c_high N_low) = iters).
Proof.
  induction iters as [|k IH]; intros c_low c_high N_low.
  - simpl. split; [constructor|]. split; [intros H; congruence|reflexivity].
  - cbn [midpoints].
    set (c_mid := fmul 0.5 (fadd c_low c_high)).
    destruct (Qltb (Qabs (N c_mid)) tol) eqn:E.
    + apply Qltb_lt in E. simpl.
      split; [constructor|]. split; [intros _; left; exact E|].
      intros Ht. exfalso. pose proof (Qabs_nonneg (N c_mid)). lra.
    + apply Qltb_ge in E.
      assert (Hgen : forall cl ch Nl,
                Forall (fun m => tol <= Qabs (N m))
                  (removelast (c_mid :: midpoints N tol k cl ch Nl)) /\
                (c_mid :: midpoints N tol k cl ch Nl <> [] ->
                 Qabs (N (last (c_mid :: midpoints N tol k cl ch Nl) 0))
                 < tol \/
                 length (c_mid :: midpoints N tol k cl ch Nl) = S k) /\
                (tol <= 0 ->
                 length (c_mid :: midpoints N tol k cl ch Nl) = S k)).
      { intros cl ch Nl. destruct (IH cl ch Nl) as (Hf & Hl & Ht).
        destruct (midpoints N tol k cl ch Nl) as [|r rest] eqn:Em.
        - apply midpoints_nonempty in Em. subst k. simpl.
          split; [constructor|]. split; [intros _; right|]; reflexivity.
        - split.
          + change (removelast (c_mid :: r :: rest))
              with (c_mid :: removelast (r :: rest)).
            constructor; assumption.
          + split.
            * intros _.
              destruct Hl as [Hl|Hl]; [discriminate| |].
              -- left.
                 change (last (c_mid :: r :: rest) 0)
                   with (last (r :: rest) 0). exact Hl.
              -- right. simpl in *. congruence.
            * intros H0. simpl in *. rewrite (Ht H0). reflexivity. }
      destruct (Qle_bool (fmul N_low (N c_mid)) 0); apply Hgen.
Qed.

(** ** The capacity evaluator *)

Lemma mrd_fibers_rect_unfold (b h : Q) (steel_layers : list SteelLayer)
  (mat : Materials) (n : Z) (sign : Sign) (tol : Q) (itmax : Z)
  (fcdv fydv dy : Q) :
  fcd mat = Ok fcdv -> fyd mat = Ok fydv -> fdiv_int h n = Ok dy ->
  mrd_fibers_rect b h steel_layers mat n sign tol itmax
  = solve_and_report mat b dy fcdv fydv (y_centers dy n)
      (mapped_layers sign h steel_layers) h tol itmax.
Proof.
  intros Hc Hy Hd. unfold mrd_fibers_rect. rewrite Hc. cbn [bind].
  rewrite Hy. cbn [bind]. rewrite Hd. reflexivity.
Qed.





Lemma midpoints_length (N : Q -> Q) (tol : Q) (iters : nat) :
  forall c_low c_high N_low,
    (length (midpoints N tol iters c_low c_high N_low) <= iters)%nat.
Proof.
  induction iters as [|k IH]; intros c_low c_high N_low; simpl; [lia|].
  destruct (Qltb _ tol); simpl; [lia|].
  destruct (Qle_bool _ 0); apply le_n_S, IH.
Qed.

(** C5 (amended).  With an iteration budget of at least one: the bracket
    starts at [1e-3, 3*h]; [c_high] is multiplied by 1.8 while
    [N_low * N_high > 0], at most eight times; and the depth returned is
    the last midpoint that the bisection computed, whether or not a
    midpoint met the tolerance and whether or not the bracket ever had a
    sign change. *)
Theorem returned_depth_is_last_midpoint (b h : Q)
  (steel_layers : list SteelLayer) (mat : Materials) (n : Z) (sign : Sign)
  (tol : Q) (itmax : Z) (fcdv fydv dy : Q) :
  fcd mat = Ok fcdv -> fyd mat = Ok fydv -> fdiv_int h n = Ok dy ->
  (1 <= itmax)%Z ->
  exists k MRd c z m ms,
    (k <= 8)%nat /\
    (forall j, (j < k)%nat ->
       0 < N_at mat b dy fcdv fydv (y_centers dy n)
             (mapped_layers sign h steel_layers) 1e-3
           * N_at mat b dy fcdv fydv (y_centers dy n)
               (mapped_layers sign h steel_layers) (grow (fmul 3.0 h) j)) /\
    (k = 8%nat \/
     N_at mat b dy fcdv fydv (y_centers dy n)
       (mapped_layers sign h steel_layers) 1e-3
     * N_at mat b dy fcdv fydv (y_centers dy n)
         (mapped_layers sign h steel_layers) (grow (fmul 3.0 h) k) <= 0) /\
    grow (fmul 3.0 h) k == 3 * h * 1.8 ^ Z.of_nat k /\
    mrd_fibers_rect b h steel_layers mat n sign tol itmax = Ok (MRd, c, z) /\
    midpoints (N_at mat b dy fcdv fydv (y_centers dy n)
                 (mapped_layers sign h steel_layers))
      tol (Z.to_nat itmax) 1e-3 (grow (fmul 3.0 h) k)
      (N_at mat b dy fcdv fydv (y_centers dy n)
         (mapped_layers sign h steel_layers) 1e-3)
    = m :: ms /\
    (length (m :: ms) <= Z.to_nat itmax)%nat /\
    c = last ms m.
Proof.
  intros Hc Hy Hd Hit.
  rewrite (mrd_fibers_rect_unfold _ _ _ _ _ _ _ _ _ _ _ Hc Hy Hd).
  set (layers := mapped_layers sign h steel_layers) in *.
  set (ys := y_centers dy n) in *.
  destruct (solve_and_report_run mat b dy fcdv fydv ys layers h tol itmax Hit)
    as (k & c & T & z & Hk & Hlt & Hend & Hbis & _ & _ & _ & Hrun).
  pose proof (bisect_last_midpoint _ _ _ _ _ _ _ _ _ _ _ _ _ _ _ Hbis)
    as Hlast.
  pose proof (midpoints_length (N_at mat b dy fcdv fydv ys layers) tol
                (Z.to_nat itmax) 1e-3 (grow (fmul 3.0 h) k)
                (N_at mat b dy fcdv fydv ys layers 1e-3)) as Hlen.
  destruct (midpoints _ tol _ 1e-3 _ _) as [|m ms] eqn:Emid;
    [discriminate|].
  exists k, (Qred (Qabs (M_at mat b dy fcdv fydv ys layers c) / 1e6)),
    c, z, m, ms.
  split; [exact Hk|]. split; [exact Hlt|]. split; [exact Hend|].
  split.
  { rewrite grow_value, fmul_eq.
    assert (H30 : 3.0 == 3) by reflexivity. rewrite H30. reflexivity. }
  split; [exact Hrun|]. split; [exact Emid|]. split; [exact Hlen|].
  congruence.
Qed.

Lemma returned_depth_is_last_midpoint_witness :
  exists k MRd c z m ms,
    (k <= 8)%nat /\
    (forall j, (j < k)%nat ->
       0 < N_at default_materials 300 15 17 (10000 # 23)
             (y_centers 15 40)
             (mapped_layers positivo 600 example_layers) 1e-3
           * N_at default_materials 300 15 17 (10000 # 23)
               (y_centers 15 40)
               (mapped_layers positivo 600 example_layers)
               (grow (fmul 3.0 600) j)) /\
    (k = 8%nat \/
     N_at default_materials 300 15 17 (10000 # 23)
       (y_centers 15 40)
       (mapped_layers positivo 600 example_layers) 1e-3
     * N_at default_materials 300 15 17 (10000 # 23)
         (y_centers 15 40)
         (mapped_layers positivo 600 example_layers)
         (grow (fmul 3.0 600) k) <= 0) /\
    grow (fmul 3.0 600) k == 3 * 600 * 1.8 ^ Z.of_nat k /\
    mrd_fibers_rect 300 600 example_layers default_materials 40 positivo
      1e-3 3 = Ok (MRd, c, z) /\
    midpoints (N_at default_materials 300 15 17 (10000 # 23)
                 (y_centers 15 40)
                 (mapped_layers positivo 600 example_layers))
      1e-3 (Z.to_nat 3) 1e-3 (grow (fmul 3.0 600) k)
      (N_at default_materials 300 15 17 (10000 # 23)
         (y_centers 15 40)
         (mapped_layers positivo 600 example_layers) 1e-3)
    = m :: ms /\
    (length (m :: ms) <= Z.to_nat 3)%nat /\
    c = last ms m.
Proof.
  apply (returned_depth_is_last_midpoint 300 600 example_layers
           default_materials 40 positivo 1e-3 3 17 (10000 # 23) 15);
    [reflexivity|reflexivity|reflexivity|lia].
Defined.

(** C5 as stated fails for an iteration budget of zero: no midpoint is
    computed and the call returns no depth. *)
Lemma zero_budget_counterexample :
  midpoints (N_at default_materials 300 15 17 (10000 # 23)
               (y_centers 15 40)
               (mapped_layers positivo 600 example_layers))
    1e-3 (Z.to_nat 0) 1e-3 (fmul 3.0 600)
    (N_at default_materials 300 15 17 (10000 # 23)
       (y_centers 15 40)
       (mapped_layers positivo 600 example_layers) 1e-3) = [] /\
  forall MRd c z,
    mrd_fibers_rect 300 600 example_layers default_materials 40 positivo
      1e-3 0 <> Ok (MRd, c, z).
Proof.
  split; [reflexivity|].
  intros MRd c z.
  assert (H : mrd_fibers_rect 300 600 example_layers default_materials 40
                positivo 1e-3 0 = Raise TypeError)
    by (vm_compute; reflexivity).
  rewrite H. discriminate.
Qed.





(** C8 (amended).  For materials with non-zero [gamma_c] and [gamma_s], a
    slice count of at least one that has a float (below [2^1024 - 2^970])
    and an iteration budget of at least one, the call raises nothing and
    returns its three results, for any width, height, steel layers, sign
    and tolerance.  The lever arm returned is the not-a-number value when
    the tension force does not exceed [1e-9] and a number otherwise.  The
    divisor of every curvature division is the trial depth clamped to the
    floor [1e-6], so that division never fails. *)
Theorem mrd_fibers_rect_total (b h : Q) (steel_layers : list SteelLayer)
  (mat : Materials) (n : Z) (sign : Sign) (tol : Q) (itmax : Z) :
  ~ gamma_c mat == 0 -> ~ gamma_s mat == 0 ->
  (1 <= n < float_overflow)%Z -> (1 <= itmax)%Z ->
  (exists fydv MRd c z,
     fyd mat = Ok fydv /\
     mrd_fibers_rect b h steel_layers mat n sign tol itmax = Ok (MRd, c, z) /\
     (tension_sum mat fydv c (mapped_layers sign h steel_layers) <= 1e-9 ->
      z = NaN) /\
     (1e-9 < tension_sum mat fydv c (mapped_layers sign h steel_layers) ->
      exists q, z = Finite q)) /\
  (forall c, 1e-6 <= pymax c 1e-6 /\
             exists kappa, fdiv (eps_cu2 mat) (pymax c 1e-6) = Ok kappa).
Proof.
  intros Hgc Hgs Hn Hit. split.
  - assert (Hnz : ~ inject_Z n == 0) by (apply inject_Z_nonzero; lia).
    assert (Hd : fdiv_int h n = Ok (Qred (h / inject_Z n))).
    { rewrite fdiv_int_ok by lia. apply fdiv_ok, Hnz. }
    rewrite (mrd_fibers_rect_unfold b h steel_layers mat n sign tol itmax
               _ _ _ (fdiv_ok _ _ Hgc) (fdiv_ok _ _ Hgs) Hd).
    match goal with
    | |- context [solve_and_report ?m ?w ?d ?f ?y ?cs ?l ?hh ?t ?i] =>
      destruct (solve_and_report_run m w d f y cs l hh t i Hit)
        as (k & c & T & z & _ & _ & _ & _ & _ & HT & Hz & Hrun);
      exists y
    end.
    rewrite Hrun. eexists _, c, z.
    split; [apply fdiv_ok, Hgs|]. split; [reflexivity|].
    rewrite <- HT.
    match type of Hz with
    | lever_arm ?M _ = _ =>
      destruct (lever_arm_value M T) as [[Hgt H]|[Hle H]]
    end.
    + rewrite H in Hz. injection Hz as <-.
      split; [intros Hle; exfalso; lra|]. intros _. eauto.
    + rewrite H in Hz. injection Hz as <-.
      split; [reflexivity|]. intros Hgt. exfalso. lra.
  - intros c. split; [apply pymax_floor|].
    rewrite (fdiv_ok _ _ (pymax_nonzero c)). eauto.
Qed.

Lemma mrd_fibers_rect_total_witness :
  (exists fydv MRd c z,
     fyd default_materials = Ok fydv /\
     mrd_fibers_rect 300 600 example_layers default_materials 40 negativo
       1e-3 120 = Ok (MRd, c, z) /\
     (tension_sum default_materials fydv c
        (mapped_layers negativo 600 example_layers) <= 1e-9 -> z = NaN) /\
     (1e-9 < tension_sum default_materials fydv c
               (mapped_layers negativo 600 example_layers) ->
      exists q, z = Finite q)) /\
  (forall c, 1e-6 <= pymax c 1e-6 /\
             exists kappa,
               fdiv (eps_cu2 default_materials) (pymax c 1e-6) = Ok kappa).
Proof.
  apply (mrd_fibers_rect_total 300 600 example_layers default_materials 40
           negativo 1e-3 120); [discriminate|discriminate|split|lia].
  - lia.
  - reflexivity.
Defined.

(** C8 as stated fails: an iteration budget of zero is accepted by the
    interface, the loop never assigns [c], and [max(None, 1e-6)] raises. *)
Lemma mrd_fibers_rect_raises_counterexample :
  mrd_fibers_rect 300 600 example_layers default_materials 40 positivo
    1e-3 0 = Raise TypeError.
Proof. vm_compute. reflexivity. Qed.

(** The other faults of the call, outside the amended domain. *)
Lemma mrd_fibers_rect_zero_slices (b h : Q) (steel_layers : list SteelLayer)
  (mat : Materials) (sign : Sign) (tol : Q) (itmax : Z) :
  ~ gamma_c mat == 0 -> ~ gamma_s mat == 0 ->
  mrd_fibers_rect b h steel_layers mat 0 sign tol itmax
  = Raise ZeroDivisionError.
Proof.
  intros Hgc Hgs. unfold mrd_fibers_rect, fcd, fyd.
  rewrite (fdiv_ok _ _ Hgc), (fdiv_ok _ _ Hgs). reflexivity.
Qed.

(** A slice count without a float: the conversion of the int operand of
    [h_mm / nlayers_concrete] raises. *)
Lemma mrd_fibers_rect_overflow (b h : Q) (steel_layers : list SteelLayer)
  (mat : Materials) (n : Z) (sign : Sign) (tol : Q) (itmax : Z) :
  ~ gamma_c mat == 0 -> ~ gamma_s mat == 0 ->
  (float_overflow <= Z.abs n)%Z ->
  mrd_fibers_rect b h steel_layers mat n sign tol itmax
  = Raise OverflowError.
Proof.
  intros Hgc Hgs Hn. unfold mrd_fibers_rect, fcd, fyd.
  rewrite (fdiv_ok _ _ Hgc), (fdiv_ok _ _ Hgs). cbn [bind].
  rewrite (fdiv_int_overflow h n Hn). reflexivity.
Qed.

Example mrd_fibers_rect_huge_slice_count :
  mrd_fibers_rect 300 600 example_layers default_materials (10 ^ 400)
    positivo 1e-3 120 = Raise OverflowError.
Proof.
  apply mrd_fibers_rect_overflow; [discriminate|discriminate|].
  vm_compute. discriminate.
Qed.

Lemma mrd_fibers_rect_zero_gamma_c (b h : Q) (steel_layers : list SteelLayer)
  (mat : Materials) (n : Z) (sign : Sign) (tol : Q) (itmax : Z) :
  gamma_c mat == 0 ->
  mrd_fibers_rect b h steel_layers mat n sign tol itmax
  = Raise ZeroDivisionError.
Proof.
  intros Hgc. unfold mrd_fibers_rect, fcd.
  rewrite (fdiv_zero _ _ Hgc). reflexivity.
Qed.

(** ** The lever arm *)

Lemma tension_sum_no_tension (mat : Materials) (fydv c : Q)
  (layers : list SteelLayer) :
  (forall sl, In sl layers ->
     0 <= steel_force mat fydv (curvature mat c) c sl) ->
  tension_sum mat fydv c layers = 0.
Proof.
  intros H. unfold tension_sum.
  induction layers as [|sl l IH]; [reflexivity|]. simpl.
  destruct (Qltb (steel_force mat fydv (curvature mat c) c sl) 0) eqn:E.
  - exfalso. apply Qltb_lt in E.
    apply (Qlt_not_le _ _ E). apply H. left. reflexivity.
  - apply IH. intros x Hx. apply H. right. exact Hx.
Qed.

(** C6.  Let [c] be the depth returned, [M] the moment that
    [section_resultants] gives at [c] and [T] the sum of [|F|] over the
    steel layers whose force at [c] is negative.  The lever arm returned is
    [|M| / T] when [T > 1e-9] and the not-a-number value otherwise; in
    particular it is not-a-number when no layer is in tension. *)
Theorem lever_arm_or_nan (b h : Q)
  (steel_layers : list SteelLayer) (mat : Materials) (n : Z) (sign : Sign)
  (tol : Q) (itmax : Z) (fcdv fydv dy : Q) :
  fcd mat = Ok fcdv -> fyd mat = Ok fydv -> fdiv_int h n = Ok dy ->
  (1 <= itmax)%Z ->
  exists MRd c z,
    mrd_fibers_rect b h steel_layers mat n sign tol itmax = Ok (MRd, c, z) /\
    MRd == Qabs (M_at mat b dy fcdv fydv (y_centers dy n)
                   (mapped_layers sign h steel_layers) c) / 1e6 /\
    (1e-9 < tension_sum mat fydv c (mapped_layers sign h steel_layers) ->
     exists q,
       z = Finite q /\
       q == Qabs (M_at mat b dy fcdv fydv (y_centers dy n)
                    (mapped_layers sign h steel_layers) c)
            / tension_sum mat fydv c (mapped_layers sign h steel_layers)) /\
    (tension_sum mat fydv c (mapped_layers sign h steel_layers) <= 1e-9 ->
     z = NaN) /\
    ((forall sl, In sl (mapped_layers sign h steel_layers) ->
        0 <= steel_force mat fydv (curvature mat c) c sl) ->
     z = NaN).
Proof.
  intros Hc Hy Hd Hit.
  rewrite (mrd_fibers_rect_unfold _ _ _ _ _ _ _ _ _ _ _ Hc Hy Hd).
  set (layers := mapped_layers sign h steel_layers) in *.
  set (ys := y_centers dy n) in *.
  destruct (solve_and_report_run mat b dy fcdv fydv ys layers h tol itmax Hit)
    as (k & c & T & z & _ & _ & _ & _ & _ & HT & Hz & Hrun).
  exists (Qred (Qabs (M_at mat b dy fcdv fydv ys layers c) / 1e6)), c, z.
  split; [exact Hrun|]. split; [apply Qred_correct|].
  assert (Hnan : tension_sum mat fydv c layers <= 1e-9 -> z = NaN).
  { intros Hle. rewrite <- HT in Hle.
    destruct (lever_arm_value (M_at mat b dy fcdv fydv ys layers c) T)
      as [[Hgt _]|[_ H]]; [exfalso; lra|congruence]. }
  split; [|split; [exact Hnan|]].
  - intros Hgt. rewrite <- HT in Hgt.
    destruct (lever_arm_value (M_at mat b dy fcdv fydv ys layers c) T)
      as [[_ H]|[Hle _]]; [|exfalso; lra].
    exists (Qred (Qabs (M_at mat b dy fcdv fydv ys layers c) / T)).
    split; [congruence|]. rewrite Qred_correct, HT. reflexivity.
  - intros Hno. apply Hnan.
    rewrite (tension_sum_no_tension _ _ _ _ Hno). discriminate.
Qed.

Lemma lever_arm_or_nan_witness :
  exists MRd c z,
    mrd_fibers_rect 300 600 compression_only_layers default_materials 40
      positivo 1e-3 4 = Ok (MRd, c, z) /\
    MRd == Qabs (M_at default_materials 300 15 17 (10000 # 23)
                   (y_centers 15 40)
                   (mapped_layers positivo 600 compression_only_layers) c)
           / 1e6 /\
    (1e-9 < tension_sum default_materials (10000 # 23) c
              (mapped_layers positivo 600 compression_only_layers) ->
     exists q,
       z = Finite q /\
       q == Qabs (M_at default_materials 300 15 17 (10000 # 23)
                    (y_centers 15 40)
                    (mapped_layers positivo 600 compression_only_layers) c)
            / tension_sum default_materials (10000 # 23) c
                (mapped_layers positivo 600 compression_only_layers)) /\
    (tension_sum default_materials (10000 # 23) c
       (mapped_layers positivo 600 compression_only_layers) <= 1e-9 ->
     z = NaN) /\
    ((forall sl,
        In sl (mapped_layers positivo 600 compression_only_layers) ->
        0 <= steel_force default_materials (10000 # 23)
               (curvature default_materials c) c sl) ->
     z = NaN).
Proof.
  apply (lever_arm_or_nan 300 600 compression_only_layers default_materials
           40 positivo 1e-3 4 17 (10000 # 23) 15);
    [reflexivity|reflexivity|reflexivity|lia].
Defined.

(** The degenerate case on a run: steel on the compressed edge only gives
    the not-a-number lever arm, and the reinforced example a finite one. *)
Example compression_only_lever_arm :
  exists MRd c,
    mrd_fibers_rect 300 600 compression_only_layers default_materials 40
      positivo 1e-3 4 = Ok (MRd, c, NaN).
Proof. eexists _, _. vm_compute. reflexivity. Qed.

Example example_section_lever_arm :
  exists MRd c z,
    mrd_fibers_rect 300 600 example_layers default_materials 40
      positivo 1e-3 120 = Ok (MRd, c, Finite z) /\
    184 < MRd /\ MRd < 185 /\ 62 < c /\ c < 63 /\ 526 < z /\ z < 527.
Proof.
  eexists _, _, _. split; [vm_compute; reflexivity|].
  do 5 (split; [vm_compute; reflexivity|]).
  vm_compute; reflexivity.
Qed.

(** ** The moment as a sum over the fibres *)

Lemma Qsum_app (l1 l2 : list Q) : Qsum (l1 ++ l2) == Qsum l1 + Qsum l2.
Proof.
  induction l1 as [|x l1 IH]; simpl; [ring|]. rewrite IH. ring.
Qed.

Lemma M_at_sums (mat : Materials) (b dy fcdv fydv : Q) (ys : list Q)
  (layers : list SteelLayer) (c : Q) :
  M_at mat b dy fcdv fydv ys layers c
  == Qsum (map (fun y => concrete_force mat b dy fcdv (curvature mat c) c y
                         * y) ys)
     + Qsum (map (fun sl => steel_force mat fydv (curvature mat c) c sl
                            * y_mm sl) layers).
Proof.
  unfold M_at.
  destruct (section_resultants_sums mat b dy fcdv fydv ys layers c)
    as (N & M & -> & _ & HM). exact HM.
Qed.




(** ** The call on the object store *)

Lemma run_pbind {A B : Type} (p : prog A) (f : A -> prog B) :
  forall st,
    run (pbind p f) st
    = match run p st with
      | (st', Ok a) => run (f a) st'
      | (st', Raise e) => (st', Raise e)
      end.
Proof.
  induction p as [a|e|o k IH|l k IH]; intros st; simpl; try reflexivity.
  - apply IH.
  - destruct (nth_error st l); [apply IH|reflexivity].
Qed.

(** No program writes: running one only appends objects to the store. *)
Lemma run_extends {A : Type} (p : prog A) :
  forall st, exists ext, fst (run p st) = st ++ ext.
Proof.
  induction p as [a|e|o k IH|l k IH]; intros st; simpl.
  - exists []. rewrite app_nil_r. reflexivity.
  - exists []. rewrite app_nil_r. reflexivity.
  - destruct (IH (length st) (st ++ [o])) as [ext Hext].
    exists (o :: ext). rewrite Hext, <- app_assoc. reflexivity.
  - destruct (nth_error st l) as [o|].
    + apply IH.
    + exists []. rewrite app_nil_r. reflexivity.
Qed.

Lemma nth_error_extend (st ext : store) (l : loc) (o : obj) :
  nth_error st l = Some o -> nth_error (st ++ ext) l = Some o.
Proof.
  intros H. rewrite nth_error_app1; [exact H|].
  apply nth_error_Some. congruence.
Qed.

Lemma layers_at_extend (st ext : store) (items : list loc)
  (sls : list SteelLayer) :
  layers_at st items = Some sls -> layers_at (st ++ ext) items = Some sls.
Proof.
  revert sls. induction items as [|l items IH]; intros sls; simpl;
    [auto|].
  destruct (nth_error st l) as [[sl| |]|] eqn:E; try discriminate.
  destruct (layers_at st items) as [sls'|]; [|discriminate].
  intros H. rewrite (nth_error_extend _ ext _ _ E), (IH sls' eq_refl).
  exact H.
Qed.

Lemma run_lift {A : Type} (r : result A) (st : store) :
  run (lift r) st = (st, r).
Proof. destruct r; reflexivity. Qed.

Lemma run_materials_attr {A : Type} (f : Materials -> A) (st : store)
  (l : loc) (m : Materials) :
  nth_error st l = Some (OMaterials m) ->
  run (materials_attr f l) st = (st, Ok (f m)).
Proof. intros H. simpl. rewrite H. reflexivity. Qed.

Lemma run_layer_attr {A : Type} (f : SteelLayer -> A) (st : store)
  (l : loc) (sl : SteelLayer) :
  nth_error st l = Some (OSteelLayer sl) ->
  run (layer_attr f l) st = (st, Ok (f sl)).
Proof. intros H. simpl. rewrite H. reflexivity. Qed.

Lemma run_list_items (st : store) (l : loc) (items : list loc) :
  nth_error st l = Some (OList items) ->
  run (list_items l) st = (st, Ok items).
Proof. intros H. simpl. rewrite H. reflexivity. Qed.

Lemma layers_at_cons (st : store) (l : loc) (items : list loc)
  (sls : list SteelLayer) :
  layers_at st (l :: items) = Some sls ->
  exists sl sls',
    sls = sl :: sls' /\ nth_error st l = Some (OSteelLayer sl) /\
    layers_at st items = Some sls'.
Proof.
  simpl. destruct (nth_error st l) as [[sl| |]|]; try discriminate.
  destruct (layers_at st items) as [sls'|]; [|discriminate].
  intros H. exists sl, sls'. split; [congruence|]. split; reflexivity.
Qed.

Lemma layers_at_nil (st : store) (sls : list SteelLayer) :
  layers_at st [] = Some sls -> sls = [].
Proof. simpl. congruence. Qed.

Section StoreRefinement.

Variables (st : store) (mat layers : loc) (m : Materials).
Variables (items : list loc) (sls : list SteelLayer).
Variables (b dy fcdv fydv : Q) (ys : list Q).

Hypothesis Hmat : nth_error st mat = Some (OMaterials m).
Hypothesis Hlist : nth_error st layers = Some (OList items).
Hypothesis Hitems : layers_at st items = Some sls.

Lemma run_steel_loop (kappa c : Q) :
  forall its vals acc,
    layers_at st its = Some vals ->
    run (forP (fun acc l =>
                 sl <~ layer_attr (fun sl => sl) l ;;
                 Ret (steel_body m fydv kappa c acc sl)) its acc) st
    = (st, Ok (fold_left (steel_body m fydv kappa c) vals acc)).
Proof.
  induction its as [|l its IH]; intros vals acc H.
  - apply layers_at_nil in H. subst vals. reflexivity.
  - apply layers_at_cons in H. destruct H as (sl & vals' & -> & Hl & H).
    cbn [forP]. rewrite run_pbind, run_pbind.
    rewrite (run_layer_attr _ _ _ _ Hl). cbn [run fold_left].
    apply IH. exact H.
Qed.

Lemma run_tension_loop (c : Q) :
  forall its vals T,
    layers_at st its = Some vals ->
    run (forP (tension_body_st mat m fydv c) its T) st
    = (st, foldM (tension_body m fydv c) vals T).
Proof.
  induction its as [|l its IH]; intros vals T H.
  - apply layers_at_nil in H. subst vals. reflexivity.
  - apply layers_at_cons in H. destruct H as (sl & vals' & -> & Hl & H).
    cbn [forP foldM]. rewrite run_pbind.
    assert (Hbody : run (tension_body_st mat m fydv c T l) st
                    = (st, tension_body m fydv c T sl)).
    { unfold tension_body_st, tension_body.
      rewrite run_pbind, (run_materials_attr _ _ _ _ Hmat).
      rewrite run_pbind, run_lift.
      destruct (fdiv (eps_cu2 m) (pymax c 1e-6)) as [kappa|e];
        cbn [bind]; [|reflexivity].
      rewrite run_pbind, (run_layer_attr _ _ _ _ Hl).
      destruct (Qltb (steel_force m fydv kappa c sl) 0); reflexivity. }
    rewrite Hbody.
    destruct (tension_body m fydv c T sl) as [T'|e]; cbn [bind];
      [apply IH; exact H|reflexivity].
Qed.

Lemma run_section_resultants (c : Q) :
  run (section_resultants_st mat layers m b dy fcdv fydv ys c) st
  = (st, section_resultants m b dy fcdv fydv ys sls c).
Proof.
  unfold section_resultants_st, section_resultants.
  rewrite run_pbind, (run_materials_attr _ _ _ _ Hmat).
  rewrite run_pbind, run_lift.
  destruct (fdiv (eps_cu2 m) (pymax c 1e-6)) as [kappa|e];
    cbn [bind]; [|reflexivity].
  rewrite run_pbind, run_lift.
  destruct (foldM (concrete_body m b dy fcdv kappa c) ys (0, 0))
    as [[Nc Mc]|e]; cbn [bind]; [|reflexivity].
  rewrite run_pbind, (run_list_items _ _ _ Hlist).
  rewrite run_pbind, (run_steel_loop kappa c items sls (0, 0) Hitems).
  destruct (fold_left (steel_body m fydv kappa c) sls (0, 0)) as [Ns Ms].
  reflexivity.
Qed.

Lemma run_expand_bracket (attempts : nat) (N_low : Q) :
  forall c_high N_high,
    run (expand_bracket_st mat layers m b dy fcdv fydv ys attempts
           N_low c_high N_high) st
    = (st, expand_bracket m b dy fcdv fydv ys sls attempts
             N_low c_high N_high).
Proof.
  induction attempts as [|k IH]; intros c_high N_high; [reflexivity|].
  cbn [expand_bracket_st expand_bracket].
  destruct (Qltb 0 (fmul N_low N_high)); [|reflexivity].
  rewrite run_pbind, run_section_resultants.
  destruct (section_resultants m b dy fcdv fydv ys sls (fmul c_high 1.8))
    as [[[N1 M1] k1]|e]; cbn [bind]; [apply IH|reflexivity].
Qed.

Lemma run_bisect (tol : Q) (iters : nat) :
  forall c_low c_high N_low N_high c0,
    run (bisect_st mat layers m b dy fcdv fydv ys tol iters
           c_low c_high N_low N_high c0) st
    = (st, bisect m b dy fcdv fydv ys sls tol iters
             c_low c_high N_low N_high c0).
Proof.
  induction iters as [|k IH]; intros c_low c_high N_low N_high c0;
    [reflexivity|].
  cbn [bisect_st bisect].
  rewrite run_pbind, run_section_resultants.
  destruct (section_resultants m b dy fcdv fydv ys sls
              (fmul 0.5 (fadd c_low c_high)))
    as [[[N1 M1] k1]|e]; cbn [bind]; [|reflexivity].
  destruct (Qltb (Qabs N1) tol); [reflexivity|].
  destruct (Qle_bool (fmul N_low N1) 0); apply IH.
Qed.

Lemma run_solve_and_report (h tol : Q) (itmax : Z) :
  run (solve_and_report_st mat layers m b dy fcdv fydv ys h tol itmax) st
  = (st, solve_and_report m b dy fcdv fydv ys sls h tol itmax).
Proof.
  unfold solve_and_report_st, solve_and_report.
  rewrite run_pbind, run_section_resultants.
  destruct (section_resultants m b dy fcdv fydv ys sls 1e-3)
    as [[[N1 M1] k1]|e]; cbn [bind]; [|reflexivity].
  rewrite run_pbind, run_section_resultants.
  destruct (section_resultants m b dy fcdv fydv ys sls (fmul 3.0 h))
    as [[[N2 M2] k2]|e]; cbn [bind]; [|reflexivity].
  rewrite run_pbind, run_expand_bracket.
  destruct (expand_bracket m b dy fcdv fydv ys sls 8 N1 (fmul 3.0 h) N2)
    as [[ch Nh]|e]; cbn [bind]; [|reflexivity].
  rewrite run_pbind, run_bisect.
  destruct (bisect m b dy fcdv fydv ys sls tol (Z.to_nat itmax)
              1e-3 ch N1 Nh None) as [[c|]|e]; cbn [bind];
    [|reflexivity|reflexivity].
  rewrite run_pbind, run_section_resultants.
  destruct (section_resultants m b dy fcdv fydv ys sls c)
    as [[[N3 M3] k3]|e]; cbn [bind]; [|reflexivity].
  rewrite run_pbind, run_lift.
  destruct (fdiv (Qabs M3) 1e6) as [MRd|e]; cbn [bind]; [|reflexivity].
  rewrite run_pbind, (run_list_items _ _ _ Hlist).
  rewrite run_pbind, (run_tension_loop c items sls 0 Hitems).
  destruct (foldM (tension_body m fydv c) sls 0) as [T|e]; cbn [bind];
    [|reflexivity].
  rewrite run_pbind, run_lift.
  destruct (lever_arm M3 T) as [z|e]; reflexivity.
Qed.

End StoreRefinement.

Lemma layers_at_length (st : store) (items : list loc) :
  forall sls, layers_at st items = Some sls -> length sls = length items.
Proof.
  induction items as [|l items IH]; intros sls H.
  - apply layers_at_nil in H. subst. reflexivity.
  - apply layers_at_cons in H. destruct H as (sl & sls' & -> & _ & H).
    simpl. rewrite (IH _ H). reflexivity.
Qed.

(** The comprehension reads the caller's layers and puts one new object
    per layer at the end of the store. *)
Lemma run_comprehension (sign : Sign) (h : Q) (items : list loc) :
  forall st sls,
    layers_at st items = Some sls ->
    run (comprehension sign h items) st
    = (st ++ map OSteelLayer (mapped_layers sign h sls),
       Ok (seq (length st) (length items))).
Proof.
  induction items as [|l items IH]; intros st sls H.
  - apply layers_at_nil in H. subst sls. simpl. rewrite app_nil_r.
    reflexivity.
  - apply layers_at_cons in H. destruct H as (sl & sls' & -> & Hl & H).
    cbn [comprehension].
    rewrite run_pbind, (run_layer_attr _ _ _ _ Hl).
    rewrite run_pbind, (run_layer_attr _ _ _ _ Hl).
    rewrite run_pbind. cbn [run].
    rewrite run_pbind.
    rewrite (IH _ sls' (layers_at_extend _ _ _ _ H)).
    cbn [run]. rewrite <- app_assoc, length_app, Nat.add_1_r. reflexivity.
Qed.

Lemma layers_at_fresh (vals : list SteelLayer) :
  forall st ext,
    layers_at (st ++ map OSteelLayer vals ++ ext)
      (seq (length st) (length vals)) = Some vals.
Proof.
  induction vals as [|v vals IH]; intros st ext; [reflexivity|].
  cbn [map length seq layers_at].
  rewrite nth_error_app2 by lia. rewrite Nat.sub_diag. cbn [nth_error app].
  replace (st ++ OSteelLayer v :: map OSteelLayer vals ++ ext)
    with ((st ++ [OSteelLayer v]) ++ map OSteelLayer vals ++ ext)
    by (rewrite <- app_assoc; reflexivity).
  replace (S (length st)) with (length (st ++ [OSteelLayer v]))
    by (rewrite length_app, Nat.add_1_r; reflexivity).
  rewrite IH. reflexivity.
Qed.

(** The call on the store computes what the call on values computes, and
    leaves behind the reflected copies and the list that holds them. *)
Lemma run_mrd_fibers_rect (st : store) (steel_layers materials : loc)
  (m : Materials) (items : list loc) (sls : list SteelLayer)
  (b h : Q) (n : Z) (sign : Sign) (tol : Q) (itmax : Z) :
  nth_error st materials = Some (OMaterials m) ->
  nth_error st steel_layers = Some (OList items) ->
  layers_at st items = Some sls ->
  run (mrd_fibers_rect_st b h steel_layers materials n sign tol itmax) st
  = match fcd m, fyd m with
    | Ok _, Ok _ =>
        (st ++ map OSteelLayer (mapped_layers sign h sls)
            ++ [OList (seq (length st) (length sls))],
         mrd_fibers_rect b h sls m n sign tol itmax)
    | _, _ => (st, mrd_fibers_rect b h sls m n sign tol itmax)
    end.
Proof.
  intros Hmat Hlist Hitems.
  unfold mrd_fibers_rect_st, mrd_fibers_rect.
  rewrite run_pbind, (run_materials_attr _ _ _ _ Hmat).
  rewrite run_pbind, run_lift.
  destruct (fcd m) as [fcdv|e]; cbn [bind]; [|reflexivity].
  rewrite run_pbind, run_lift.
  destruct (fyd m) as [fydv|e]; cbn [bind]; [|reflexivity].
  rewrite run_pbind, (run_list_items _ _ _ Hlist).
  rewrite run_pbind, (run_comprehension sign h items st sls Hitems).
  rewrite run_pbind. cbn [run].
  rewrite <- (layers_at_length _ _ _ Hitems).
  set (vals := mapped_layers sign h sls).
  assert (Hlen : length vals = length sls)
    by (unfold vals, mapped_layers; apply length_map).
  set (st1 := st ++ map OSteelLayer vals).
  set (new := seq (length st) (length sls)).
  rewrite run_pbind, run_lift.
  replace (st ++ map OSteelLayer vals ++ [OList new])
    with (st1 ++ [OList new]) by (unfold st1; apply eq_sym, app_assoc).
  destruct (fdiv_int h n) as [dy|e]; cbn [bind]; [|reflexivity].
  assert (H1 : nth_error (st1 ++ [OList new]) materials
               = Some (OMaterials m)).
  { unfold st1. rewrite <- app_assoc. apply nth_error_extend. exact Hmat. }
  assert (H2 : nth_error (st1 ++ [OList new]) (length st1)
               = Some (OList new)).
  { rewrite nth_error_app2 by lia. rewrite Nat.sub_diag. reflexivity. }
  assert (H3 : layers_at (st1 ++ [OList new]) new = Some vals).
  { unfold st1, new. rewrite <- app_assoc, <- Hlen. apply layers_at_fresh. }
  apply (run_solve_and_report _ _ _ _ new vals _ _ _ _ _ H1 H2 H3).
Qed.

Lemma mapped_layers_reflected (sign : Sign) (h : Q) (sls : list SteelLayer) :
  Forall2 (reflected sign h) sls (mapped_layers sign h sls).
Proof.
  induction sls as [|sl sls IH]; simpl; constructor; [|exact IH].
  split; [reflexivity|]. simpl.
  destruct sign; simpl; [reflexivity|apply fsub_eq].
Qed.

(** C9.  Run on a store in which [materials] refers to a [Materials]
    object and [steel_layers] to a list of [SteelLayer] objects, the call,
    for either sign: leaves every object that existed before it as it was,
    so the caller's list still holds the same references, the layers
    behind them the same ordinates and areas, and the materials the same
    values; returns what the call on those values returns; and, once [fcd]
    and [fyd] are computed, has added to the store only the reflected
    copies of the layers ([y] replaced by [h - y] for ["negativo"], kept
    for ["positivo"], areas kept) and the new list that holds them. *)
Theorem inputs_unchanged (st : store) (steel_layers materials : loc)
  (m : Materials) (items : list loc) (sls : list SteelLayer)
  (b h : Q) (n : Z) (sign : Sign) (tol : Q) (itmax : Z) :
  nth_error st materials = Some (OMaterials m) ->
  nth_error st steel_layers = Some (OList items) ->
  layers_at st items = Some sls ->
  (forall l o,
     nth_error st l = Some o ->
     nth_error
       (fst (run (mrd_fibers_rect_st b h steel_layers materials n sign
                    tol itmax) st)) l = Some o) /\
  nth_error
    (fst (run (mrd_fibers_rect_st b h steel_layers materials n sign
                 tol itmax) st)) steel_layers = Some (OList items) /\
  layers_at
    (fst (run (mrd_fibers_rect_st b h steel_layers materials n sign
                 tol itmax) st)) items = Some sls /\
  nth_error
    (fst (run (mrd_fibers_rect_st b h steel_layers materials n sign
                 tol itmax) st)) materials = Some (OMaterials m) /\
  snd (run (mrd_fibers_rect_st b h steel_layers materials n sign
              tol itmax) st)
  = mrd_fibers_rect b h sls m n sign tol itmax /\
  (forall fcdv fydv,
     fcd m = Ok fcdv -> fyd m = Ok fydv ->
     fst (run (mrd_fibers_rect_st b h steel_layers materials n sign
                 tol itmax) st)
     = st ++ map OSteelLayer (mapped_layers sign h sls)
          ++ [OList (seq (length st) (length sls))]) /\
  Forall2 (reflected sign h) sls (mapped_layers sign h sls).
Proof.
  intros Hmat Hlist Hitems.
  destruct (run_extends
              (mrd_fibers_rect_st b h steel_layers materials n sign
                 tol itmax) st) as [ext Hext].
  rewrite Hext.
  split; [intros l o Hl; apply nth_error_extend; exact Hl|].
  split; [apply nth_error_extend; exact Hlist|].
  split; [apply layers_at_extend; exact Hitems|].
  split; [apply nth_error_extend; exact Hmat|].
  rewrite <- Hext.
  rewrite (run_mrd_fibers_rect st steel_layers materials m items sls
             b h n sign tol itmax Hmat Hlist Hitems).
  split; [destruct (fcd m); [destruct (fyd m)|]; reflexivity|].
  split; [intros fcdv fydv -> ->; reflexivity|].
  apply mapped_layers_reflected.
Qed.

Lemma inputs_unchanged_witness :
  (forall l o,
     nth_error example_store l = Some o ->
     nth_error
       (fst (run (mrd_fibers_rect_st 300 600 2%nat 3%nat 40 negativo
                    1e-3 120) example_store)) l = Some o) /\
  nth_error
    (fst (run (mrd_fibers_rect_st 300 600 2%nat 3%nat 40 negativo
                 1e-3 120) example_store)) 2%nat
  = Some (OList [0%nat; 1%nat]) /\
  layers_at
    (fst (run (mrd_fibers_rect_st 300 600 2%nat 3%nat 40 negativo
                 1e-3 120) example_store)) [0%nat; 1%nat]
  = Some example_layers /\
  nth_error
    (fst (run (mrd_fibers_rect_st 300 600 2%nat 3%nat 40 negativo
                 1e-3 120) example_store)) 3%nat
  = Some (OMaterials default_materials) /\
  snd (run (mrd_fibers_rect_st 300 600 2%nat 3%nat 40 negativo
              1e-3 120) example_store)
  = mrd_fibers_rect 300 600 example_layers default_materials 40 negativo
      1e-3 120 /\
  (forall fcdv fydv,
     fcd default_materials = Ok fcdv -> fyd default_materials = Ok fydv ->
     fst (run (mrd_fibers_rect_st 300 600 2%nat 3%nat 40 negativo
                 1e-3 120) example_store)
     = example_store
         ++ map OSteelLayer (mapped_layers negativo 600 example_layers)
         ++ [OList (seq (length example_store) (length example_layers))]) /\
  Forall2 (reflected negativo 600) example_layers
    (mapped_layers negativo 600 example_layers).
Proof.
  apply (inputs_unchanged example_store 2%nat 3%nat default_materials
           [0%nat; 1%nat] example_layers 300 600 40 negativo 1e-3 120);
    reflexivity.
Defined.

(** A run on the store, with one layer object listed twice: the two
    objects of the caller are untouched and four objects are added, three
    reflected copies and their list. *)
Example aliased_layers_run :
  fst (run (mrd_fibers_rect_st 300 600 1%nat 2%nat 4 negativo 1e-3 2)
         [OSteelLayer (mkSteelLayer 43 402.12);
          OList [0%nat; 0%nat; 0%nat];
          OMaterials default_materials])
  = [OSteelLayer (mkSteelLayer 43 402.12);
     OList [0%nat; 0%nat; 0%nat];
     OMaterials default_materials;
     OSteelLayer (mkSteelLayer 557 402.12);
     OSteelLayer (mkSteelLayer 557 402.12);
     OSteelLayer (mkSteelLayer 557 402.12);
     OList [3%nat; 4%nat; 5%nat]].
Proof. vm_compute. reflexivity. Qed.

(** * Further properties of the code *)

(** ** Bar areas *)

Lemma bar_area_value (d : Q) :
  d ^ 2 < inject_Z float_overflow ->
  bar_area d = Ok (Qred (fmul math_pi (fsqr d) / 4.0)).
Proof.
  intros H. unfold bar_area. rewrite (fpow2_ok d H). cbn [bind].
  apply fdiv_ok. discriminate.
Qed.

Lemma bar_area_overflow (d : Q) :
  inject_Z float_overflow <= d ^ 2 -> bar_area d = Raise OverflowError.
Proof.
  intros H. unfold bar_area. rewrite (fpow2_overflow d H). reflexivity.
Qed.

Lemma area_barras_loop (l : list Q) :
  Forall (fun d => d ^ 2 < inject_Z float_overflow) l ->
  forall acc, exists v,
    foldM (fun acc d => a <- bar_area d ;; Ok (fadd acc a)) l acc = Ok v /\
    v == acc + math_pi / 4 * Qsum (map (fun d => d * d) l).
Proof.
  induction 1 as [|d l Hd Hl IH]; intros acc; cbn [foldM map].
  - exists acc. split; [reflexivity|]. unfold Qsum. simpl. ring.
  - rewrite (bar_area_value d Hd). cbn [bind].
    destruct (IH (fadd acc (Qred (fmul math_pi (fsqr d) / 4.0))))
      as (v & Hrun & Hv).
    exists v. split; [exact Hrun|].
    rewrite Hv. fnorm_goal.
    change (Qsum (d * d :: map (fun d0 => d0 * d0) l))
      with (d * d + Qsum (map (fun d0 => d0 * d0) l)).
    assert (H4 : 4.0 == 4) by reflexivity. rewrite H4. field.
Qed.

Lemma area_barras_loop_overflow (l : list Q) :
  Exists (fun d => inject_Z float_overflow <= d ^ 2) l ->
  forall acc,
    foldM (fun acc d => a <- bar_area d ;; Ok (fadd acc a)) l acc
    = Raise OverflowError.
Proof.
  induction l as [|d l IH]; intros H acc; [inversion H|].
  cbn [foldM].
  destruct (Qlt_le_dec (d ^ 2) (inject_Z float_overflow)) as [Hlt|Hge].
  - rewrite (bar_area_value d Hlt). cbn [bind]. apply IH.
    inversion H as [? ? H0|? ? H0]; subst; [|exact H0].
    exfalso. apply (Qlt_not_le _ _ Hlt H0).
  - rewrite (bar_area_overflow d Hge). reflexivity.
Qed.

Lemma Qsum_squares_nonneg (l : list Q) :
  0 <= Qsum (map (fun d => d * d) l).
Proof.
  induction l as [|d l IH]; simpl; [apply Qle_refl|].
  assert (H : 0 <= d * d) by nra. lra.
Qed.

(** [area_barras] raises [OverflowError] when the square of some diameter
    has no float, and nothing otherwise.  In exact arithmetic its value is
    [pi/4] times the sum of the squared diameters, so it is 0 for the
    empty list, never negative (whatever the signs of the diameters) and
    additive over the concatenation of two lists of bars. *)
Theorem area_barras_additive (l1 l2 : list Q) :
  Forall (fun d => d ^ 2 < inject_Z float_overflow) l1 ->
  Forall (fun d => d ^ 2 < inject_Z float_overflow) l2 ->
  area_barras [] = Ok 0 /\
  (forall l, Exists (fun d => inject_Z float_overflow <= d ^ 2) l ->
             area_barras l = Raise OverflowError) /\
  exists v1 v2 v,
    area_barras l1 = Ok v1 /\ area_barras l2 = Ok v2 /\
    area_barras (l1 ++ l2) = Ok v /\
    v1 == math_pi / 4 * Qsum (map (fun d => d * d) l1) /\
    0 <= v1 /\
    v == v1 + v2.
Proof.
  intros F1 F2.
  split; [reflexivity|].
  split; [intros l Hl; apply area_barras_loop_overflow, Hl|].
  unfold area_barras.
  destruct (area_barras_loop l1 F1 0) as (v1 & H1 & E1).
  destruct (area_barras_loop l2 F2 0) as (v2 & H2 & E2).
  assert (F : Forall (fun d => d ^ 2 < inject_Z float_overflow) (l1 ++ l2))
    by (apply Forall_app; split; assumption).
  destruct (area_barras_loop (l1 ++ l2) F 0) as (v & H & E).
  exists v1, v2, v. repeat (split; [assumption|]).
  split; [rewrite E1; ring|].
  split.
  - rewrite E1. pose proof (Qsum_squares_nonneg l1) as Hs.
    assert (Hp : 0 < math_pi / 4) by reflexivity.
    assert (0 <= math_pi / 4 * Qsum (map (fun d => d * d) l1))
      by (apply Qmult_le_0_compat; lra).
    lra.
  - rewrite E, E1, E2, map_app.
    assert (Happ : forall a c : list Q, Qsum (a ++ c) == Qsum a + Qsum c).
    { intros a c. induction a as [|x a IHa]; simpl; [ring|].
      rewrite IHa. ring. }
    rewrite Happ. ring.
Qed.

Lemma area_barras_additive_witness :
  area_barras [] = Ok 0 /\
  (forall l, Exists (fun d => inject_Z float_overflow <= d ^ 2) l ->
             area_barras l = Raise OverflowError) /\
  exists v1 v2 v,
    area_barras [16; 16] = Ok v1 /\ area_barras [16; 16; 16; 16] = Ok v2 /\
    area_barras ([16; 16] ++ [16; 16; 16; 16]) = Ok v /\
    v1 == math_pi / 4 * Qsum (map (fun d => d * d) [16; 16]) /\
    0 <= v1 /\
    v == v1 + v2.
Proof.
  apply (area_barras_additive [16; 16] [16; 16; 16; 16]);
    repeat (apply Forall_cons; [reflexivity|]); apply Forall_nil.
Defined.

(** A diameter of [1e200]: [d**2] raises. *)
Example area_barras_huge_diameter :
  area_barras [16; 1e200] = Raise OverflowError.
Proof. vm_compute. reflexivity. Qed.

(** ** Bounds and monotonicity of the material laws *)

Lemma parabola_bounds (e e2 : Q) :
  0 < e -> e <= e2 ->
  0 <= 1 - (1 - e / e2) ^ 2 /\ 1 - (1 - e / e2) ^ 2 <= 1.
Proof.
  intros H0 H1.
  assert (Ha : 0 < e / e2) by (apply Qlt_shift_div_l; lra).
  assert (Hb : e / e2 <= 1) by (apply Qle_shift_div_r; lra).
  set (eta := e / e2) in *. simpl. split; nra.
Qed.

Lemma parabola_monotone (s1 s2 e2 : Q) :
  0 < s1 -> s1 <= s2 -> s2 <= e2 ->
  1 - (1 - s1 / e2) ^ 2 <= 1 - (1 - s2 / e2) ^ 2.
Proof.
  intros H0 H1 H2.
  assert (Ha : 0 < s1 / e2) by (apply Qlt_shift_div_l; lra).
  assert (Hb : s2 / e2 <= 1) by (apply Qle_shift_div_r; lra).
  assert (Hc : s1 / e2 <= s2 / e2).
  { unfold Qdiv. apply Qmult_le_compat_r; [exact H1|].
    apply Qlt_le_weak, Qinv_lt_0_compat. lra. }
  set (a := s1 / e2) in *. set (c := s2 / e2) in *. simpl. nra.
Qed.

Lemma sigma_c_value_bounds (e fcd e2 eu : Q) :
  0 <= fcd ->
  0 <= sigma_c_value e fcd e2 eu /\ sigma_c_value e fcd e2 eu <= fcd.
Proof.
  intros Hf.
  destruct (sigma_c_value_cases e fcd e2 eu)
    as [[H0 H]|[(H0 & H1 & H)|[(H0 & H1 & H3 & H)|(H0 & H1 & H3 & H)]]];
    rewrite H; try lra.
  destruct (parabola_bounds e e2 H0 H1) as [Ha Hb].
  set (p := 1 - (1 - e / e2) ^ 2) in *. split; nra.
Qed.

(** Whatever the strain and the two strain limits (also zero, negative or
    in the wrong order), [sigma_c_ec2] raises nothing, and for [fcd >= 0]
    the stress it returns lies between 0 and [fcd]. *)
Theorem sigma_c_ec2_bounded (strain fcd e2 eu : Q) :
  0 <= fcd ->
  exists v, sigma_c_ec2 strain fcd e2 eu = Ok v /\ 0 <= v /\ v <= fcd.
Proof.
  intros Hf. exists (sigma_c_value strain fcd e2 eu).
  split; [apply sigma_c_ec2_value|]. apply sigma_c_value_bounds, Hf.
Qed.

Lemma sigma_c_ec2_bounded_witness :
  exists v, sigma_c_ec2 0.001 17 0 (- 1) = Ok v /\ 0 <= v /\ v <= 17.
Proof. apply (sigma_c_ec2_bounded 0.001 17 0 (- 1)). discriminate. Defined.

Lemma sigma_c_value_monotone (s1 s2 fcd e2 eu : Q) :
  0 <= fcd -> s1 <= s2 -> s2 <= eu ->
  sigma_c_value s1 fcd e2 eu <= sigma_c_value s2 fcd e2 eu.
Proof.
  intros Hf H12 Hu.
  destruct (sigma_c_value_bounds s2 fcd e2 eu Hf) as [Hb0 Hb1].
  destruct (sigma_c_value_cases s1 fcd e2 eu)
    as [[H0 H]|[(H0 & H1 & H)|[(H0 & H1 & H3 & H)|(H0 & H1 & H3 & H)]]];
    rewrite H; try lra.
  - destruct (sigma_c_value_cases s2 fcd e2 eu)
      as [[G0 G]|[(G0 & G1 & G)|[(G0 & G1 & G3 & G)|(G0 & G1 & G3 & G)]]];
      rewrite G; try lra.
    + pose proof (parabola_monotone s1 s2 e2 H0 H12 G1) as Hm.
      set (p1 := 1 - (1 - s1 / e2) ^ 2) in *.
      set (p2 := 1 - (1 - s2 / e2) ^ 2) in *. nra.
    + destruct (parabola_bounds s1 e2 H0 H1) as [Ha Hb].
      set (p1 := 1 - (1 - s1 / e2) ^ 2) in *. nra.
  - destruct (sigma_c_value_cases s2 fcd e2 eu)
      as [[G0 G]|[(G0 & G1 & G)|[(G0 & G1 & G3 & G)|(G0 & G1 & G3 & G)]]];
      rewrite G; lra.
Qed.

(** Up to the ultimate strain the concrete stress never decreases when
    the strain grows (for [fcd >= 0]); the fall to 0 happens only beyond
    [eps_cu2]. *)
Theorem sigma_c_ec2_monotone (s1 s2 fcd e2 eu : Q) :
  0 <= fcd -> s1 <= s2 -> s2 <= eu ->
  exists v1 v2,
    sigma_c_ec2 s1 fcd e2 eu = Ok v1 /\ sigma_c_ec2 s2 fcd e2 eu = Ok v2 /\
    v1 <= v2.
Proof.
  intros Hf H12 Hu.
  exists (sigma_c_value s1 fcd e2 eu), (sigma_c_value s2 fcd e2 eu).
  split; [apply sigma_c_ec2_value|]. split; [apply sigma_c_ec2_value|].
  apply sigma_c_value_monotone; assumption.
Qed.

Lemma sigma_c_ec2_monotone_witness :
  exists v1 v2,
    sigma_c_ec2 0.001 17 0.002 0.0035 = Ok v1 /\
    sigma_c_ec2 0.003 17 0.002 0.0035 = Ok v2 /\
    v1 <= v2.
Proof.
  apply (sigma_c_ec2_monotone 0.001 0.003 17 0.002 0.0035); discriminate.
Defined.

Lemma sigma_s_bilineal_monotone_aux (e1 e2 Es fyd : Q) :
  0 <= Es -> 0 <= fyd -> e1 <= e2 ->
  sigma_s_bilineal e1 Es fyd <= sigma_s_bilineal e2 Es fyd.
Proof.
  intros HE Hf H12.
  assert (Hx : Es * e1 <= Es * e2) by nra.
  destruct (sigma_s_bilineal_cases e1 Es fyd)
    as [[H1 H]|[(H1 & H2 & H)|(H1 & H2 & H)]]; rewrite H; clear H;
  destruct (sigma_s_bilineal_cases e2 Es fyd)
    as [[G1 G]|[(G1 & G2 & G)|(G1 & G2 & G)]]; rewrite G; clear G;
  rewrite ?fmul_eq; lra.
Qed.

(** The steel stress never decreases when the strain grows, for
    [Es >= 0] and [fyd >= 0]; together with the clipping, strains of
    opposite sign give stresses of opposite sign. *)
Theorem sigma_s_bilineal_monotone (e1 e2 Es fyd : Q) :
  0 <= Es -> 0 <= fyd -> e1 <= e2 ->
  sigma_s_bilineal e1 Es fyd <= sigma_s_bilineal e2 Es fyd /\
  (e1 <= 0 -> sigma_s_bilineal e1 Es fyd <= 0) /\
  (0 <= e2 -> 0 <= sigma_s_bilineal e2 Es fyd).
Proof.
  intros HE Hf H12.
  assert (H0 : sigma_s_bilineal 0 Es fyd == 0).
  { destruct (sigma_s_bilineal_cases 0 Es fyd)
      as [[H1 H]|[(H1 & H2 & H)|(H1 & H2 & H)]]; rewrite H;
      rewrite ?fmul_eq; lra. }
  split; [apply sigma_s_bilineal_monotone_aux; assumption|].
  split; intros Hs.
  - rewrite <- H0. apply sigma_s_bilineal_monotone_aux; assumption.
  - rewrite <- H0. apply sigma_s_bilineal_monotone_aux; assumption.
Qed.

Lemma sigma_s_bilineal_monotone_witness :
  sigma_s_bilineal (- 0.01) 200000 400 <= sigma_s_bilineal 0.001 200000 400 /\
  (- 0.01 <= 0 -> sigma_s_bilineal (- 0.01) 200000 400 <= 0) /\
  (0 <= 0.001 -> 0 <= sigma_s_bilineal 0.001 200000 400).
Proof.
  apply (sigma_s_bilineal_monotone (- 0.01) 0.001 200000 400); discriminate.
Defined.

(** ** Strains and resultants at a trial depth *)

Lemma pymax_cases (c : Q) :
  (c < 1e-6 /\ pymax c 1e-6 = 1e-6) \/ (1e-6 <= c /\ pymax c 1e-6 = c).
Proof.
  unfold pymax. destruct (Qltb c 1e-6) eqn:E.
  - left. apply Qltb_lt in E. auto.
  - right. apply Qltb_ge in E. auto.
Qed.

Lemma Qdiv_le_cross (a c m1 m2 : Q) :
  0 < m1 -> 0 < m2 -> a * m2 <= c * m1 -> a / m1 <= c / m2.
Proof.
  intros H1 H2 H.
  apply Qle_shift_div_l; [exact H2|].
  assert (E : a / m1 * m2 == a * m2 / m1) by (field; lra).
  rewrite E. apply Qle_shift_div_r; [exact H1|exact H].
Qed.

Lemma strain_value (mat : Materials) (c y : Q) :
  fmul (curvature mat c) (fsub c y)
  == eps_cu2 mat * ((c - y) / pymax c 1e-6).
Proof.
  unfold curvature. fnorm_goal. field. apply pymax_nonzero.
Qed.

Lemma strain_le_ultimate (mat : Materials) (c y : Q) :
  0 <= eps_cu2 mat -> 0 <= y ->
  fmul (curvature mat c) (fsub c y) <= eps_cu2 mat.
Proof.
  intros Hu Hy. rewrite strain_value.
  assert (Hr : (c - y) / pymax c 1e-6 <= 1).
  { assert (Hs : 0 < 1e-6) by reflexivity.
    apply Qle_shift_div_r.
    - destruct (pymax_cases c) as [[Hc ->]|[Hc ->]]; lra.
    - destruct (pymax_cases c) as [[Hc ->]|[Hc ->]]; lra. }
  set (r := (c - y) / pymax c 1e-6) in *. nra.
Qed.

Lemma strain_monotone (mat : Materials) (c1 c2 y : Q) :
  0 <= eps_cu2 mat -> 0 <= y -> c1 <= c2 ->
  fmul (curvature mat c1) (fsub c1 y) <= fmul (curvature mat c2) (fsub c2 y).
Proof.
  intros Hu Hy Hc. rewrite !strain_value.
  assert (Hs : 0 < 1e-6) by reflexivity.
  assert (Hr : (c1 - y) / pymax c1 1e-6 <= (c2 - y) / pymax c2 1e-6).
  { destruct (pymax_cases c1) as [[H1 ->]|[H1 ->]];
      destruct (pymax_cases c2) as [[H2 ->]|[H2 ->]];
      apply Qdiv_le_cross; try lra; nra. }
  set (r1 := (c1 - y) / pymax c1 1e-6) in *.
  set (r2 := (c2 - y) / pymax c2 1e-6) in *. nra.
Qed.

(** In exact arithmetic and for [eps_cu2 >= 0], no fibre at an ordinate
    [y >= 0] is strained beyond [eps_cu2], whatever the trial depth (also
    below the floor [1e-6] or negative): without rounding, the branch of
    [sigma_c_ec2] for strains outside the ultimate domain is never taken
    inside [section_resultants], and every compressed fibre carries a
    positive stress when [fcd > 0]. *)
Theorem concrete_strain_within_domain (mat : Materials) (fcd c y : Q) :
  0 <= eps_cu2 mat -> 0 <= y ->
  fmul (curvature mat c) (fsub c y) <= eps_cu2 mat /\
  exists v,
    sigma_c_ec2 (fmul (curvature mat c) (fsub c y)) fcd
      (eps_c2 mat) (eps_cu2 mat) = Ok v /\
    (0 < fcd -> 0 < fmul (curvature mat c) (fsub c y) -> 0 < v).
Proof.
  intros Hu Hy.
  pose proof (strain_le_ultimate mat c y Hu Hy) as Hle.
  split; [exact Hle|].
  set (s := fmul (curvature mat c) (fsub c y)) in *.
  exists (sigma_c_value s fcd (eps_c2 mat) (eps_cu2 mat)).
  split; [apply sigma_c_ec2_value|].
  intros Hf Hs.
  destruct (sigma_c_value_cases s fcd (eps_c2 mat) (eps_cu2 mat))
    as [[H0 H]|[(H0 & H1 & H)|[(H0 & H1 & H3 & H)|(H0 & H1 & H3 & H)]]];
    rewrite H; try lra.
  assert (Ha : 0 < s / eps_c2 mat) by (apply Qlt_shift_div_l; lra).
  assert (Hb : s / eps_c2 mat <= 1) by (apply Qle_shift_div_r; lra).
  set (eta := s / eps_c2 mat) in *.
  assert (Hp : 0 < 1 - (1 - eta) ^ 2) by (simpl; nra).
  set (p := 1 - (1 - eta) ^ 2) in *. nra.
Qed.

Lemma concrete_strain_within_domain_witness :
  fmul (curvature default_materials 100) (fsub 100 75)
  <= eps_cu2 default_materials /\
  exists v,
    sigma_c_ec2 (fmul (curvature default_materials 100) (fsub 100 75)) 17
      (eps_c2 default_materials) (eps_cu2 default_materials) = Ok v /\
    (0 < 17 -> 0 < fmul (curvature default_materials 100) (fsub 100 75) ->
     0 < v).
Proof.
  apply (concrete_strain_within_domain default_materials 17 100 75);
    discriminate.
Defined.

Lemma N_at_sums (mat : Materials) (b dy fcdv fydv : Q) (ys : list Q)
  (layers : list SteelLayer) (c : Q) :
  N_at mat b dy fcdv fydv ys layers c
  == Qsum (map (concrete_force mat b dy fcdv (curvature mat c) c) ys)
     + Qsum (map (steel_force mat fydv (curvature mat c) c) layers).
Proof.
  unfold N_at.
  destruct (section_resultants_sums mat b dy fcdv fydv ys layers c)
    as (N & M & -> & HN & _). exact HN.
Qed.

Lemma Qsum_map_le {A : Type} (f g : A -> Q) (l : list A) :
  (forall x, In x l -> f x <= g x) ->
  Qsum (map f l) <= Qsum (map g l).
Proof.
  induction l as [|a l IH]; intros H; simpl; [apply Qle_refl|].
  assert (H1 : f a <= g a) by (apply H; left; reflexivity).
  assert (H2 : Qsum (map f l) <= Qsum (map g l))
    by (apply IH; intros x Hx; apply H; right; exact Hx).
  lra.
Qed.

Lemma Qsum_map_nonneg {A : Type} (f : A -> Q) (l : list A) :
  (forall x, In x l -> 0 <= f x) -> 0 <= Qsum (map f l).
Proof.
  induction l as [|a l IH]; intros H; simpl; [apply Qle_refl|].
  assert (H1 : 0 <= f a) by (apply H; left; reflexivity).
  assert (H2 : 0 <= Qsum (map f l))
    by (apply IH; intros x Hx; apply H; right; exact Hx).
  lra.
Qed.

Lemma Qsum_map_const {A : Type} (k : Q) (l : list A) :
  Qsum (map (fun _ => k) l) == inject_Z (Z.of_nat (length l)) * k.
Proof.
  induction l as [|a l IH].
  - simpl. ring.
  - cbn [map length]. rewrite Nat2Z.inj_succ. unfold Z.succ.
    rewrite inject_Z_plus.
    change (Qsum (k :: map (fun _ : A => k) l))
      with (k + Qsum (map (fun _ : A => k) l)).
    rewrite IH. ring.
Qed.

Lemma Qsum_map_scale {A : Type} (k : Q) (f : A -> Q) (l : list A) :
  Qsum (map (fun x => k * f x) l) == k * Qsum (map f l).
Proof.
  induction l as [|a l IH]; simpl; [ring|]. rewrite IH. ring.
Qed.

Lemma concrete_force_value (mat : Materials) (b dy fcdv kappa c y : Q) :
  concrete_force mat b dy fcdv kappa c y
  == sigma_c_value (fmul kappa (fsub c y)) fcdv (eps_c2 mat) (eps_cu2 mat)
     * (b * dy).
Proof. unfold concrete_force. rewrite !fmul_eq. ring. Qed.

Lemma steel_force_value (mat : Materials) (fydv kappa c : Q)
  (sl : SteelLayer) :
  steel_force mat fydv kappa c sl
  == sigma_s_bilineal (fmul kappa (fsub c (y_mm sl))) (Es_MPa mat) fydv
     * As_mm2 sl.
Proof. unfold steel_force. apply fmul_eq. Qed.

Lemma sigma_s_bilineal_range (e Es fydv : Q) :
  0 <= fydv ->
  - fydv <= sigma_s_bilineal e Es fydv /\ sigma_s_bilineal e Es fydv <= fydv.
Proof.
  intros Hf.
  destruct (sigma_s_bilineal_cases e Es fydv)
    as [[H1 H]|[(H1 & H2 & H)|(H1 & H2 & H)]]; rewrite H;
    rewrite ?fmul_eq; lra.
Qed.

Lemma n_times_dy (h dy : Q) (n : Z) :
  (1 <= n)%Z -> dy == h / inject_Z n ->
  inject_Z (Z.of_nat (length (y_centers dy n))) * dy == h.
Proof.
  intros Hn Hdy. rewrite y_centers_length, Z2Nat.id by lia.
  rewrite Hdy. field. apply inject_Z_nonzero. lia.
Qed.

(** In exact arithmetic the axial resultant of any trial depth stays
    within the plastic capacities of the section: for non-negative [fcd],
    [fyd], width, height and areas and a slice count of at least one,
    [- fyd * sum(As) <= N(c) <= fcd * b * h + fyd * sum(As)]. *)
Theorem axial_resultant_bounds (mat : Materials) (b h fcdv fydv dy : Q)
  (n : Z) (layers : list SteelLayer) (c : Q) :
  (1 <= n)%Z -> fdiv_int h n = Ok dy ->
  0 <= fcdv -> 0 <= fydv -> 0 <= b -> 0 <= h ->
  (forall sl, In sl layers -> 0 <= As_mm2 sl) ->
  exists N M kappa,
    section_resultants mat b dy fcdv fydv (y_centers dy n) layers c
    = Ok (N, M, kappa) /\
    - (fydv * Qsum (map As_mm2 layers)) <= N /\
    N <= fcdv * b * h + fydv * Qsum (map As_mm2 layers).
Proof.
  intros Hn Hd Hf Hy Hb Hh HA.
  destruct (fdiv_int_inv _ _ _ Hd) as [_ Hd'].
  destruct (fdiv_inv _ _ _ Hd') as [_ Hdy].
  assert (Hdy0 : 0 <= dy).
  { rewrite Hdy. apply Qle_shift_div_l; [|lra].
    rewrite <- (Zlt_Qlt 0). lia. }
  destruct (section_resultants_sums mat b dy fcdv fydv (y_centers dy n)
              layers c) as (N & M & Hrun & HN & _).
  exists N, M, (curvature mat c). split; [exact Hrun|].
  assert (Hbd : 0 <= b * dy) by (apply Qmult_le_0_compat; assumption).
  assert (Hc0 : 0 <= Qsum (map (concrete_force mat b dy fcdv
                                  (curvature mat c) c) (y_centers dy n))).
  { apply Qsum_map_nonneg. intros y _. rewrite concrete_force_value.
    destruct (sigma_c_value_bounds
                (fmul (curvature mat c) (fsub c y)) fcdv
                (eps_c2 mat) (eps_cu2 mat) Hf) as [H0 _].
    apply Qmult_le_0_compat; assumption. }
  assert (Hc1 : Qsum (map (concrete_force mat b dy fcdv
                             (curvature mat c) c) (y_centers dy n))
                <= fcdv * b * h).
  { assert (E : fcdv * b * h
                == inject_Z (Z.of_nat (length (y_centers dy n)))
                   * (fcdv * (b * dy))).
    { rewrite <- (n_times_dy h dy n Hn Hdy) at 1. ring. }
    rewrite E, <- Qsum_map_const.
    apply Qsum_map_le. intros y _. rewrite concrete_force_value.
    destruct (sigma_c_value_bounds
                (fmul (curvature mat c) (fsub c y)) fcdv
                (eps_c2 mat) (eps_cu2 mat) Hf) as [_ H1].
    apply Qmult_le_compat_r; assumption. }
  assert (Hs1 : Qsum (map (steel_force mat fydv (curvature mat c) c) layers)
                <= fydv * Qsum (map As_mm2 layers)).
  { rewrite <- Qsum_map_scale. apply Qsum_map_le. intros sl Hsl.
    rewrite steel_force_value.
    destruct (sigma_s_bilineal_range
                (fmul (curvature mat c) (fsub c (y_mm sl))) (Es_MPa mat)
                fydv Hy) as [_ H1].
    apply Qmult_le_compat_r; [exact H1|apply HA, Hsl]. }
  assert (Hs0 : - (fydv * Qsum (map As_mm2 layers))
                <= Qsum (map (steel_force mat fydv (curvature mat c) c)
                           layers)).
  { assert (E : - (fydv * Qsum (map As_mm2 layers))
                == (- fydv) * Qsum (map As_mm2 layers)) by ring.
    rewrite E, <- Qsum_map_scale. apply Qsum_map_le. intros sl Hsl.
    rewrite steel_force_value.
    destruct (sigma_s_bilineal_range
                (fmul (curvature mat c) (fsub c (y_mm sl))) (Es_MPa mat)
                fydv Hy) as [H0 _].
    apply Qmult_le_compat_r; [exact H0|apply HA, Hsl]. }
  rewrite HN. split; lra.
Qed.

Lemma axial_resultant_bounds_witness :
  exists N M kappa,
    section_resultants default_materials 300 15 17 (10000 # 23)
      (y_centers 15 40) example_layers 100 = Ok (N, M, kappa) /\
    - ((10000 # 23) * Qsum (map As_mm2 example_layers)) <= N /\
    N <= 17 * 300 * 600 + (10000 # 23) * Qsum (map As_mm2 example_layers).
Proof.
  apply (axial_resultant_bounds default_materials 300 600 17 (10000 # 23)
           15 40 example_layers 100);
    [lia|reflexivity|discriminate|discriminate|discriminate|discriminate|].
  intros sl [<-|[<-|[]]]; discriminate.
Defined.

Lemma y_centers_nonneg (dy : Q) (n : Z) (y : Q) :
  0 <= dy -> In y (y_centers dy n) -> 0 <= y.
Proof.
  intros Hdy Hy. unfold y_centers, range in Hy. rewrite map_map in Hy.
  apply in_map_iff in Hy. destruct Hy as (k & <- & _).
  rewrite fmul_eq, fadd_eq.
  assert (Hk : 0 <= inject_Z (Z.of_nat k))
    by (rewrite <- (Zle_Qle 0); lia).
  apply Qmult_le_0_compat; [|exact Hdy].
  assert (H5 : 0 <= 0.5) by discriminate. lra.
Qed.

(** The axial resultant never decreases when the trial depth grows, for
    non-negative [fcd], [fyd], [Es], [eps_cu2], width and slice thickness
    and steel layers with non-negative ordinates and areas: this is what
    lets the bisection keep the half of the bracket where [N] changes
    sign. *)
Theorem axial_resultant_monotone (mat : Materials) (b dy fcdv fydv : Q)
  (n : Z) (layers : list SteelLayer) (c1 c2 : Q) :
  0 <= fcdv -> 0 <= fydv -> 0 <= Es_MPa mat -> 0 <= eps_cu2 mat ->
  0 <= b -> 0 <= dy ->
  (forall sl, In sl layers -> 0 <= y_mm sl /\ 0 <= As_mm2 sl) ->
  c1 <= c2 ->
  exists N1 M1 k1 N2 M2 k2,
    section_resultants mat b dy fcdv fydv (y_centers dy n) layers c1
    = Ok (N1, M1, k1) /\
    section_resultants mat b dy fcdv fydv (y_centers dy n) layers c2
    = Ok (N2, M2, k2) /\
    N1 <= N2.
Proof.
  intros Hf Hy HE Hu Hb Hdy HL Hc.
  destruct (section_resultants_sums mat b dy fcdv fydv (y_centers dy n)
              layers c1) as (N1 & M1 & Hrun1 & HN1 & _).
  destruct (section_resultants_sums mat b dy fcdv fydv (y_centers dy n)
              layers c2) as (N2 & M2 & Hrun2 & HN2 & _).
  exists N1, M1, (curvature mat c1), N2, M2, (curvature mat c2).
  split; [exact Hrun1|]. split; [exact Hrun2|].
  assert (Hbd : 0 <= b * dy) by (apply Qmult_le_0_compat; assumption).
  assert (Hcon :
            Qsum (map (concrete_force mat b dy fcdv (curvature mat c1) c1)
                    (y_centers dy n))
            <= Qsum (map (concrete_force mat b dy fcdv (curvature mat c2) c2)
                       (y_centers dy n))).
  { apply Qsum_map_le. intros y Hin. rewrite !concrete_force_value.
    apply Qmult_le_compat_r; [|exact Hbd].
    pose proof (y_centers_nonneg dy n y Hdy Hin) as Hy0.
    apply sigma_c_value_monotone; [exact Hf| |].
    - apply strain_monotone; assumption.
    - apply strain_le_ultimate; assumption. }
  assert (Hst :
            Qsum (map (steel_force mat fydv (curvature mat c1) c1) layers)
            <= Qsum (map (steel_force mat fydv (curvature mat c2) c2)
                       layers)).
  { apply Qsum_map_le. intros sl Hin. rewrite !steel_force_value.
    destruct (HL sl Hin) as [Hy0 HA].
    apply Qmult_le_compat_r; [|exact HA].
    apply sigma_s_bilineal_monotone_aux; try assumption.
    apply strain_monotone; assumption. }
  rewrite HN1, HN2. lra.
Qed.

Lemma axial_resultant_monotone_witness :
  exists N1 M1 k1 N2 M2 k2,
    section_resultants default_materials 300 15 17 (10000 # 23)
      (y_centers 15 40) example_layers 50 = Ok (N1, M1, k1) /\
    section_resultants default_materials 300 15 17 (10000 # 23)
      (y_centers 15 40) example_layers 100 = Ok (N2, M2, k2) /\
    N1 <= N2.
Proof.
  apply (axial_resultant_monotone default_materials 300 15 17 (10000 # 23)
           40 example_layers 50 100); try discriminate.
  intros sl [<-|[<-|[]]]; split; discriminate.
Defined.

(** In exact arithmetic the resultants at a fixed trial depth are affine
    in the area of each layer: changing one area from [A] to [A'] changes
    N by the stress of that layer times [A' - A] and M by that amount
    times the ordinate. *)
Theorem resultants_affine_in_area (mat : Materials) (b dy fcdv fydv : Q)
  (ys : list Q) (pre post : list SteelLayer) (y A A' c : Q) :
  exists N M N' M' kappa,
    section_resultants mat b dy fcdv fydv ys
      (pre ++ mkSteelLayer y A :: post) c = Ok (N, M, kappa) /\
    section_resultants mat b dy fcdv fydv ys
      (pre ++ mkSteelLayer y A' :: post) c = Ok (N', M', kappa) /\
    N' == N + sigma_s_bilineal (fmul kappa (fsub c y)) (Es_MPa mat) fydv
              * (A' - A) /\
    M' == M + sigma_s_bilineal (fmul kappa (fsub c y)) (Es_MPa mat) fydv
              * (A' - A) * y.
Proof.
  destruct (section_resultants_sums mat b dy fcdv fydv ys
              (pre ++ mkSteelLayer y A :: post) c)
    as (N & M & Hrun & HN & HM).
  destruct (section_resultants_sums mat b dy fcdv fydv ys
              (pre ++ mkSteelLayer y A' :: post) c)
    as (N' & M' & Hrun' & HN' & HM').
  exists N, M, N', M', (curvature mat c).
  split; [exact Hrun|]. split; [exact Hrun'|].
  rewrite HN, HN', HM, HM', !map_app, !Qsum_app. simpl.
  unfold steel_force at 2 5 8 11. simpl. rewrite !fmul_eq. split; ring.
Qed.

Lemma y_centers_nth_value (h dy : Q) (n : Z) (i : nat) :
  (i < Z.to_nat n)%nat -> dy == h / inject_Z n ->
  nth i (y_centers dy n) 0 == (inject_Z (Z.of_nat i) + 0.5) * (h / inject_Z n).
Proof.
  intros Hi Hdy. rewrite (y_centers_nth _ _ _ Hi).
  rewrite fmul_eq, fadd_eq, Hdy. reflexivity.
Qed.

(** In exact arithmetic, for a positive height and a slice count of at
    least one, the slices tile the height: [n * dy = h], every centre lies
    strictly between 0 and [h], the first at [dy / 2], and consecutive
    centres are [dy] apart, in increasing order from the compressed
    edge. *)
Theorem slices_tile_height (h dy : Q) (n : Z) :
  (1 <= n)%Z -> 0 < h -> fdiv_int h n = Ok dy ->
  inject_Z n * dy == h /\
  nth 0 (y_centers dy n) 0 == dy / 2 /\
  (forall i, (i < Z.to_nat n)%nat ->
     0 < nth i (y_centers dy n) 0 /\ nth i (y_centers dy n) 0 < h) /\
  (forall i, (S i < Z.to_nat n)%nat ->
     nth (S i) (y_centers dy n) 0 == nth i (y_centers dy n) 0 + dy).
Proof.
  intros Hn Hh Hd. destruct (fdiv_int_inv _ _ _ Hd) as [_ Hd'].
  destruct (fdiv_inv _ _ _ Hd') as [Hnz Hdy].
  assert (Hn0 : 0 < inject_Z n) by (rewrite <- (Zlt_Qlt 0); lia).
  assert (Hdy0 : 0 < dy).
  { rewrite Hdy. apply Qlt_shift_div_l; lra. }
  assert (Hnd : inject_Z n * dy == h) by (rewrite Hdy; field; exact Hnz).
  split; [exact Hnd|].
  split.
  { rewrite (y_centers_nth dy n 0) by lia. rewrite fmul_eq, fadd_eq.
    change (inject_Z (Z.of_nat 0)) with 0. field. }
  split.
  - intros i Hi. rewrite (y_centers_nth dy n i Hi), fmul_eq, fadd_eq.
    assert (Hi0 : 0 <= inject_Z (Z.of_nat i))
      by (rewrite <- (Zle_Qle 0); lia).
    assert (Hi1 : inject_Z (Z.of_nat i) + 1 <= inject_Z n).
    { rewrite <- (inject_Z_plus _ 1), <- Zle_Qle. lia. }
    assert (H5 : 0.5 == 1 # 2) by reflexivity. rewrite H5.
    split; nra.
  - intros i Hi.
    rewrite (y_centers_nth dy n (S i) Hi).
    rewrite (y_centers_nth dy n i) by lia.
    rewrite !fmul_eq, !fadd_eq, Nat2Z.inj_succ. unfold Z.succ.
    rewrite inject_Z_plus. change (inject_Z 1) with 1. ring.
Qed.

Lemma slices_tile_height_witness :
  inject_Z 40 * 15 == 600 /\
  nth 0 (y_centers 15 40) 0 == 15 / 2 /\
  (forall i, (i < Z.to_nat 40)%nat ->
     0 < nth i (y_centers 15 40) 0 /\ nth i (y_centers 15 40) 0 < 600) /\
  (forall i, (S i < Z.to_nat 40)%nat ->
     nth (S i) (y_centers 15 40) 0 == nth i (y_centers 15 40) 0 + 15).
Proof.
  apply (slices_tile_height 600 15 40); [lia|reflexivity|reflexivity].
Defined.

(** ** The order of the layers and the sign convention *)

Lemma layers_equiv_refl (l : list SteelLayer) : layers_equiv l l.
Proof.
  induction l as [|a l IH]; constructor; try reflexivity. exact IH.
Qed.

Lemma Permutation_layers_equiv (l l' : list SteelLayer) :
  Permutation l l' -> layers_equiv l l'.
Proof.
  induction 1.
  - constructor.
  - constructor; try reflexivity. assumption.
  - apply layers_equiv_swap.
  - eapply layers_equiv_trans; eassumption.
Qed.

Lemma Qsum_map_equiv (f : SteelLayer -> Q) (l l' : list SteelLayer) :
  (forall a b, y_mm a == y_mm b -> As_mm2 a == As_mm2 b -> f a == f b) ->
  layers_equiv l l' -> Qsum (map f l) == Qsum (map f l').
Proof.
  intros Hf H. induction H as [|a b l l' Hy HA H IH|a b l|l1 l2 l3 H1 IH1 H2 IH2];
    simpl.
  - reflexivity.
  - rewrite (Hf a b Hy HA), IH. reflexivity.
  - ring.
  - rewrite IH1. exact IH2.
Qed.

Lemma steel_force_equiv (mat : Materials) (fydv kappa c : Q)
  (a b : SteelLayer) :
  y_mm a == y_mm b -> As_mm2 a == As_mm2 b ->
  steel_force mat fydv kappa c a == steel_force mat fydv kappa c b.
Proof.
  intros Hy HA. unfold steel_force. rewrite Hy, HA. reflexivity.
Qed.

Lemma mapped_layers_equiv (sign : Sign) (h : Q) (l l' : list SteelLayer) :
  layers_equiv l l' ->
  layers_equiv (mapped_layers sign h l) (mapped_layers sign h l').
Proof.
  induction 1 as [|a b l l' Hy HA H IH|a b l|l1 l2 l3 H1 IH1 H2 IH2]; simpl.
  - constructor.
  - constructor; simpl; [|exact HA|exact IH].
    destruct sign; simpl; [exact Hy|rewrite Hy; reflexivity].
  - apply layers_equiv_swap.
  - eapply layers_equiv_trans; eassumption.
Qed.

Lemma section_resultants_equiv (mat : Materials) (b dy fcdv fydv : Q)
  (ys : list Q) (l l' : list SteelLayer) (c : Q) :
  layers_equiv l l' ->
  section_resultants mat b dy fcdv fydv ys l c
  = section_resultants mat b dy fcdv fydv ys l' c.
Proof.
  intros H. unfold section_resultants.
  destruct (fdiv (eps_cu2 mat) (pymax c 1e-6)) as [kappa|e];
    cbn [bind]; [|reflexivity].
  destruct (foldM (concrete_body mat b dy fcdv kappa c) ys (0, 0))
    as [[Nc Mc]|e]; cbn [bind]; [|reflexivity].
  destruct (steel_loop mat fydv kappa c l 0 0) as [HN HM].
  destruct (steel_loop mat fydv kappa c l' 0 0) as [HN' HM'].
  destruct (fold_left (steel_body mat fydv kappa c) l (0, 0)) as [Ns Ms].
  destruct (fold_left (steel_body mat fydv kappa c) l' (0, 0)) as [Ns' Ms'].
  simpl in HN, HM, HN', HM'.
  assert (EN : Ns == Ns').
  { rewrite HN, HN'.
    rewrite (Qsum_map_equiv _ l l'
               (steel_force_equiv mat fydv kappa c) H). reflexivity. }
  assert (EM : Ms == Ms').
  { rewrite HM, HM'.
    rewrite (Qsum_map_equiv
               (fun sl => steel_force mat fydv kappa c sl * y_mm sl) l l');
      [reflexivity| |exact H].
    intros x y Hy HA. rewrite (steel_force_equiv mat fydv kappa c x y Hy HA), Hy.
    reflexivity. }
  assert (E1 : fadd Nc Ns = fadd Nc Ns')
    by (apply Qred_complete; rewrite EN; reflexivity).
  assert (E2 : fadd Mc Ms = fadd Mc Ms')
    by (apply Qred_complete; rewrite EM; reflexivity).
  rewrite E1, E2. reflexivity.
Qed.

Section SameResultants.

Variables (mat : Materials) (b dy fcdv fydv : Q) (ys : list Q).
Variables (l l' : list SteelLayer).
Hypothesis Hsr : forall c,
  section_resultants mat b dy fcdv fydv ys l c
  = section_resultants mat b dy fcdv fydv ys l' c.

Lemma expand_bracket_same (attempts : nat) (N_low : Q) :
  forall c_high N_high,
    expand_bracket mat b dy fcdv fydv ys l attempts N_low c_high N_high
    = expand_bracket mat b dy fcdv fydv ys l' attempts N_low c_high N_high.
Proof.
  induction attempts as [|k IH]; intros c_high N_high; [reflexivity|].
  cbn [expand_bracket]. rewrite Hsr.
  destruct (Qltb 0 (fmul N_low N_high)); [|reflexivity].
  destruct (section_resultants mat b dy fcdv fydv ys l' (fmul c_high 1.8))
    as [[[N1 M1] k1]|e]; cbn [bind]; [apply IH|reflexivity].
Qed.

Lemma bisect_same (tol : Q) (iters : nat) :
  forall c_low c_high N_low N_high c0,
    bisect mat b dy fcdv fydv ys l tol iters c_low c_high N_low N_high c0
    = bisect mat b dy fcdv fydv ys l' tol iters c_low c_high N_low N_high c0.
Proof.
  induction iters as [|k IH]; intros c_low c_high N_low N_high c0;
    [reflexivity|].
  cbn [bisect]. rewrite Hsr.
  destruct (section_resultants mat b dy fcdv fydv ys l'
              (fmul 0.5 (fadd c_low c_high)))
    as [[[N1 M1] k1]|e]; cbn [bind]; [|reflexivity].
  destruct (Qltb (Qabs N1) tol); [reflexivity|].
  destruct (Qle_bool (fmul N_low N1) 0); apply IH.
Qed.

End SameResultants.

Lemma tension_loop_canonical (mat : Materials) (fydv c : Q)
  (l : list SteelLayer) :
  forall T0 T,
    Qred T0 = T0 -> foldM (tension_body mat fydv c) l T0 = Ok T ->
    Qred T = T.
Proof.
  induction l as [|sl l IH]; intros T0 T H0; simpl.
  - intros H. congruence.
  - unfold tension_body at 1.
    destruct (fdiv (eps_cu2 mat) (pymax c 1e-6)) as [kappa|e];
      cbn [bind]; [|discriminate].
    destruct (Qltb (steel_force mat fydv kappa c sl) 0); cbn [bind].
    + apply IH. unfold fadd. apply Qred_complete, Qred_correct.
    + apply IH. exact H0.
Qed.

Lemma tension_sum_equiv (mat : Materials) (fydv c : Q)
  (l l' : list SteelLayer) :
  layers_equiv l l' ->
  tension_sum mat fydv c l == tension_sum mat fydv c l'.
Proof.
  intros H. unfold tension_sum.
  induction H as [|a b l l' Hy HA H IH|a b l|l1 l2 l3 H1 IH1 H2 IH2].
  - reflexivity.
  - pose proof (steel_force_equiv mat fydv (curvature mat c) c a b Hy HA)
      as HF.
    cbn [filter]. rewrite HF.
    destruct (Qltb (steel_force mat fydv (curvature mat c) c b) 0);
      [|exact IH].
    cbn [map]. change (Qsum (?x :: ?r)) with (x + Qsum r).
    rewrite HF, IH. reflexivity.
  - cbn [filter].
    destruct (Qltb (steel_force mat fydv (curvature mat c) c a) 0);
      destruct (Qltb (steel_force mat fydv (curvature mat c) c b) 0);
      simpl; ring.
  - rewrite IH1. exact IH2.
Qed.

Lemma tension_loop_equiv (mat : Materials) (fydv c : Q)
  (l l' : list SteelLayer) :
  layers_equiv l l' ->
  foldM (tension_body mat fydv c) l 0 = foldM (tension_body mat fydv c) l' 0.
Proof.
  intros H.
  destruct (tension_loop mat fydv l c 0) as (T & HT & HTv).
  destruct (tension_loop mat fydv l' c 0) as (T' & HT' & HTv').
  rewrite HT, HT'. f_equal.
  rewrite <- (tension_loop_canonical mat fydv c l 0 T eq_refl HT).
  rewrite <- (tension_loop_canonical mat fydv c l' 0 T' eq_refl HT').
  apply Qred_complete.
  rewrite HTv, HTv', (tension_sum_equiv mat fydv c l l' H). reflexivity.
Qed.

Lemma solve_and_report_equiv (mat : Materials) (b dy fcdv fydv : Q)
  (ys : list Q) (l l' : list SteelLayer) (h tol : Q) (itmax : Z) :
  layers_equiv l l' ->
  solve_and_report mat b dy fcdv fydv ys l h tol itmax
  = solve_and_report mat b dy fcdv fydv ys l' h tol itmax.
Proof.
  intros H.
  assert (Hsr : forall c,
            section_resultants mat b dy fcdv fydv ys l c
            = section_resultants mat b dy fcdv fydv ys l' c)
    by (intros c; apply section_resultants_equiv, H).
  unfold solve_and_report. rewrite !Hsr.
  destruct (section_resultants mat b dy fcdv fydv ys l' 1e-3)
    as [[[N1 M1] k1]|e]; cbn [bind]; [|reflexivity].
  destruct (section_resultants mat b dy fcdv fydv ys l' (fmul 3.0 h))
    as [[[N2 M2] k2]|e]; cbn [bind]; [|reflexivity].
  rewrite (expand_bracket_same mat b dy fcdv fydv ys l l' Hsr).
  destruct (expand_bracket mat b dy fcdv fydv ys l' 8 N1 (fmul 3.0 h) N2)
    as [[ch Nh]|e]; cbn [bind]; [|reflexivity].
  rewrite (bisect_same mat b dy fcdv fydv ys l l' Hsr).
  destruct (bisect mat b dy fcdv fydv ys l' tol (Z.to_nat itmax)
              1e-3 ch N1 Nh None) as [[c|]|e]; cbn [bind];
    [|reflexivity|reflexivity].
  rewrite Hsr, (tension_loop_equiv mat fydv c l l' H). reflexivity.
Qed.

Lemma mrd_fibers_rect_equiv (b h : Q) (sls sls' : list SteelLayer)
  (mat : Materials) (n : Z) (sign sign' : Sign) (tol : Q) (itmax : Z) :
  layers_equiv (mapped_layers sign h sls) (mapped_layers sign' h sls') ->
  mrd_fibers_rect b h sls mat n sign tol itmax
  = mrd_fibers_rect b h sls' mat n sign' tol itmax.
Proof.
  intros H. unfold mrd_fibers_rect.
  destruct (fcd mat) as [fcdv|e]; cbn [bind]; [|reflexivity].
  destruct (fyd mat) as [fydv|e]; cbn [bind]; [|reflexivity].
  destruct (fdiv_int h n) as [dy|e]; cbn [bind]; [|reflexivity].
  apply solve_and_report_equiv, H.
Qed.

(** The result does not depend on the order in which the caller lists the
    steel layers (in exact arithmetic, where the sums of the layer forces
    do not depend on the order of the terms). *)
Theorem layer_order_irrelevant (b h : Q) (sls sls' : list SteelLayer)
  (mat : Materials) (n : Z) (sign : Sign) (tol : Q) (itmax : Z) :
  Permutation sls sls' ->
  mrd_fibers_rect b h sls mat n sign tol itmax
  = mrd_fibers_rect b h sls' mat n sign tol itmax.
Proof.
  intros H. apply mrd_fibers_rect_equiv, mapped_layers_equiv,
    Permutation_layers_equiv, H.
Qed.

Lemma layer_order_irrelevant_witness :
  mrd_fibers_rect 300 600
    [mkSteelLayer 43 402.12; mkSteelLayer 557 804.25]
    default_materials 40 positivo 1e-3 120
  = mrd_fibers_rect 300 600
      [mkSteelLayer 557 804.25; mkSteelLayer 43 402.12]
      default_materials 40 positivo 1e-3 120.
Proof.
  apply (layer_order_irrelevant 300 600
           [mkSteelLayer 43 402.12; mkSteelLayer 557 804.25]
           [mkSteelLayer 557 804.25; mkSteelLayer 43 402.12]
           default_materials 40 positivo 1e-3 120).
  apply perm_swap.
Defined.

Lemma mapped_layers_positivo (h : Q) (sls : list SteelLayer) :
  mapped_layers positivo h sls = sls.
Proof.
  induction sls as [|[y A] sls IH]; [reflexivity|].
  simpl. f_equal. exact IH.
Qed.

Lemma double_reflection (h : Q) (sls : list SteelLayer) :
  layers_equiv (mapped_layers negativo h (mapped_layers negativo h sls)) sls.
Proof.
  induction sls as [|sl sls IH]; simpl; constructor; simpl;
    [rewrite !fsub_eq; ring|reflexivity|exact IH].
Qed.

(** The sign selector is a reflection of the input and nothing else: a
    ["negativo"] call returns what the ["positivo"] call returns on the
    layers reflected by [y -> h - y]; and, in exact arithmetic (where
    [h - (h - y)] is [y]), a ["negativo"] call on the reflected layers
    returns what the ["positivo"] call returns on the original ones. *)
Theorem negativo_is_positivo_on_reflection (b h : Q)
  (sls : list SteelLayer) (mat : Materials) (n : Z) (tol : Q) (itmax : Z) :
  mrd_fibers_rect b h sls mat n negativo tol itmax
  = mrd_fibers_rect b h (mapped_layers negativo h sls) mat n positivo
      tol itmax /\
  mrd_fibers_rect b h (mapped_layers negativo h sls) mat n negativo tol itmax
  = mrd_fibers_rect b h sls mat n positivo tol itmax.
Proof.
  split; apply mrd_fibers_rect_equiv; rewrite mapped_layers_positivo.
  - apply layers_equiv_refl.
  - apply double_reflection.
Qed.

(** For a steel layout that is its own mirror image about mid-height
    (the reflected layers are the same layers, in any order), the two
    signs give the same MRd, depth and lever arm. *)
Theorem mirror_symmetric_section (b h : Q)
  (sls : list SteelLayer) (mat : Materials) (n : Z) (tol : Q) (itmax : Z) :
  layers_equiv (mapped_layers negativo h sls) sls ->
  mrd_fibers_rect b h sls mat n negativo tol itmax
  = mrd_fibers_rect b h sls mat n positivo tol itmax.
Proof.
  intros H. apply mrd_fibers_rect_equiv.
  rewrite mapped_layers_positivo. exact H.
Qed.

Lemma mirror_symmetric_section_witness :
  mrd_fibers_rect 300 600
    [mkSteelLayer 43.5 402.12; mkSteelLayer 556.5 402.12]
    default_materials 40 negativo 1e-3 120
  = mrd_fibers_rect 300 600
      [mkSteelLayer 43.5 402.12; mkSteelLayer 556.5 402.12]
      default_materials 40 positivo 1e-3 120.
Proof.
  apply (mirror_symmetric_section 300 600
           [mkSteelLayer 43.5 402.12; mkSteelLayer 556.5 402.12]
           default_materials 40 1e-3 120).
  eapply layers_equiv_trans; [|apply layers_equiv_swap].
  repeat (constructor; try reflexivity).
Defined.

(** ** Outcomes of a call *)

Lemma solve_and_report_no_budget (mat : Materials) (b dy fcdv fydv : Q)
  (ys : list Q) (layers : list SteelLayer) (h tol : Q) (itmax : Z) :
  (itmax <= 0)%Z ->
  solve_and_report mat b dy fcdv fydv ys layers h tol itmax
  = Raise TypeError.
Proof.
  intros Hit. unfold solve_and_report.
  rewrite (sr_eq mat b dy fcdv fydv ys layers 1e-3). cbn [bind].
  rewrite (sr_eq mat b dy fcdv fydv ys layers (fmul 3.0 h)). cbn [bind].
  destruct (expand_bracket_spec mat b dy fcdv fydv ys layers 8
              (N_at mat b dy fcdv fydv ys layers 1e-3) (fmul 3.0 h))
    as (k & _ & Hexp & _).
  rewrite Hexp. cbn [bind].
  replace (Z.to_nat itmax) with 0%nat by lia. reflexivity.
Qed.

Lemma mrd_fibers_rect_cases (b h : Q) (sls : list SteelLayer)
  (mat : Materials) (n : Z) (sign : Sign) (tol : Q) (itmax : Z) :
  ((gamma_c mat == 0 \/ gamma_s mat == 0 \/ n = 0%Z) /\
   mrd_fibers_rect b h sls mat n sign tol itmax = Raise ZeroDivisionError) \/
  (~ gamma_c mat == 0 /\ ~ gamma_s mat == 0 /\
   (float_overflow <= Z.abs n)%Z /\
   mrd_fibers_rect b h sls mat n sign tol itmax = Raise OverflowError) \/
  (~ gamma_c mat == 0 /\ ~ gamma_s mat == 0 /\ n <> 0%Z /\
   (Z.abs n < float_overflow)%Z /\ (itmax <= 0)%Z /\
   mrd_fibers_rect b h sls mat n sign tol itmax = Raise TypeError) \/
  (~ gamma_c mat == 0 /\ ~ gamma_s mat == 0 /\ n <> 0%Z /\
   (Z.abs n < float_overflow)%Z /\ (1 <= itmax)%Z /\
   exists r, mrd_fibers_rect b h sls mat n sign tol itmax = Ok r).
Proof.
  destruct (Qeq_dec (gamma_c mat) 0) as [Hc|Hc].
  { left. split; [auto|]. apply mrd_fibers_rect_zero_gamma_c, Hc. }
  destruct (Qeq_dec (gamma_s mat) 0) as [Hs|Hs].
  { left. split; [auto|]. unfold mrd_fibers_rect, fcd, fyd.
    rewrite (fdiv_ok _ _ Hc), (fdiv_zero _ _ Hs). reflexivity. }
  destruct (Z.eq_dec n 0) as [Hn|Hn].
  { left. split; [auto|]. subst n.
    apply mrd_fibers_rect_zero_slices; assumption. }
  right.
  destruct (Z_lt_le_dec (Z.abs n) float_overflow) as [Hfit|Hbig].
  2:{ left. repeat (split; [assumption|]).
      apply mrd_fibers_rect_overflow; assumption. }
  right.
  pose proof (inject_Z_nonzero n Hn) as Hnz.
  assert (Hd : fdiv_int h n = Ok (Qred (h / inject_Z n))).
  { rewrite (fdiv_int_ok h n Hfit). apply fdiv_ok, Hnz. }
  rewrite (mrd_fibers_rect_unfold b h sls mat n sign tol itmax
             _ _ _ (fdiv_ok _ _ Hc) (fdiv_ok _ _ Hs) Hd).
  destruct (Z_le_gt_dec 1 itmax) as [Hit|Hit].
  - right. repeat (split; [assumption|]).
    match goal with
    | |- context [solve_and_report ?m ?w ?d ?f ?y ?cs ?l ?hh ?t ?i] =>
      destruct (solve_and_report_run m w d f y cs l hh t i Hit)
        as (k & c & T & z & _ & _ & _ & _ & _ & _ & _ & Hrun)
    end.
    rewrite Hrun. eauto.
  - left. repeat (split; [assumption|]).
    split; [lia|]. apply solve_and_report_no_budget. lia.
Qed.

(** The outcome of a call is decided by four inputs.  It raises
    [ZeroDivisionError] exactly when [gamma_c], [gamma_s] or the slice
    count is zero; otherwise it raises [OverflowError] exactly when the
    slice count has no float (magnitude of [2^1024 - 2^970] or more);
    otherwise it raises [TypeError] exactly when the iteration budget is
    zero or negative; otherwise it returns.  A negative slice count is
    accepted (the section then has no concrete slices). *)
Theorem mrd_fibers_rect_outcome (b h : Q) (sls : list SteelLayer)
  (mat : Materials) (n : Z) (sign : Sign) (tol : Q) (itmax : Z) :
  (mrd_fibers_rect b h sls mat n sign tol itmax = Raise ZeroDivisionError
   <-> gamma_c mat == 0 \/ gamma_s mat == 0 \/ n = 0%Z) /\
  (mrd_fibers_rect b h sls mat n sign tol itmax = Raise OverflowError
   <-> ~ gamma_c mat == 0 /\ ~ gamma_s mat == 0 /\
       (float_overflow <= Z.abs n)%Z) /\
  (mrd_fibers_rect b h sls mat n sign tol itmax = Raise TypeError
   <-> ~ gamma_c mat == 0 /\ ~ gamma_s mat == 0 /\ n <> 0%Z /\
       (Z.abs n < float_overflow)%Z /\ (itmax <= 0)%Z) /\
  ((exists r, mrd_fibers_rect b h sls mat n sign tol itmax = Ok r)
   <-> ~ gamma_c mat == 0 /\ ~ gamma_s mat == 0 /\ n <> 0%Z /\
       (Z.abs n < float_overflow)%Z /\ (1 <= itmax)%Z) /\
  mrd_fibers_rect b h sls mat n sign tol itmax <> Raise AttributeError /\
  ((n <= 0)%Z -> forall dy, y_centers dy n = []).
Proof.
  assert (Hneg : (n <= 0)%Z -> forall dy, y_centers dy n = []).
  { intros Hn dy. unfold y_centers, range.
    replace (Z.to_nat n) with 0%nat by lia. reflexivity. }
  assert (Hbig0 : (0 < float_overflow)%Z) by reflexivity.
  destruct (mrd_fibers_rect_cases b h sls mat n sign tol itmax)
    as [[Hz H]|[(Hc & Hs & Hbig & H)|[(Hc & Hs & Hn & Hfit & Hit & H)
                                     |(Hc & Hs & Hn & Hfit & Hit & [r H])]]];
    rewrite H.
  - split; [split; [intros _; exact Hz|reflexivity]|].
    split; [split; [discriminate|]|].
    { intros (Hc & Hs & Hbig). exfalso.
      destruct Hz as [Hz|[Hz|Hz]]; [contradiction|contradiction|].
      subst n. simpl in Hbig. lia. }
    split; [split; [discriminate|]|].
    { intros (Hc & Hs & Hn & _). exfalso.
      destruct Hz as [Hz|[Hz|Hz]]; contradiction. }
    split; [|split; [discriminate|exact Hneg]].
    split; [intros [r Hr]; discriminate|].
    intros (Hc & Hs & Hn & _). exfalso.
    destruct Hz as [Hz|[Hz|Hz]]; contradiction.
  - assert (Hn : n <> 0%Z) by (intros ->; simpl in Hbig; lia).
    split; [split; [discriminate|]|].
    { intros [Hz|[Hz|Hz]]; contradiction. }
    split; [split; [intros _; auto|reflexivity]|].
    split; [split; [discriminate|]|].
    { intros (_ & _ & _ & Hfit & _). exfalso. lia. }
    split; [|split; [discriminate|exact Hneg]].
    split; [intros [r Hr]; discriminate|].
    intros (_ & _ & _ & Hfit & _). exfalso. lia.
  - split; [split; [discriminate|]|].
    { intros [Hz|[Hz|Hz]]; contradiction. }
    split; [split; [discriminate|]|].
    { intros (_ & _ & Hbig). exfalso. lia. }
    split; [split; [intros _; auto|reflexivity]|].
    split; [|split; [discriminate|exact Hneg]].
    split; [intros [r Hr]; discriminate|].
    intros (_ & _ & _ & _ & Hit'). exfalso. lia.
  - split; [split; [discriminate|]|].
    { intros [Hz|[Hz|Hz]]; contradiction. }
    split; [split; [discriminate|]|].
    { intros (_ & _ & Hbig). exfalso. lia. }
    split; [split; [discriminate|]|].
    { intros (_ & _ & _ & _ & Hit'). exfalso. lia. }
    split; [|split; [discriminate|exact Hneg]].
    split; [intros _; auto 10|intros _; eauto].
Qed.

(** ** The stopping rule of the bisection *)

(** The bisection stops at the first midpoint that meets the tolerance:
    every midpoint before the one returned has [|N| >= tol_N]; if the
    returned one does not meet the tolerance either, the whole budget was
    used; and with [tol_N <= 0] the loop always uses the whole budget. *)
Theorem bisect_first_hit (mat : Materials) (b dy fcdv fydv : Q)
  (ys : list Q) (layers : list SteelLayer) (tol : Q) (iters : nat)
  (c_low c_high N_low N_high c : Q) :
  bisect mat b dy fcdv fydv ys layers tol iters c_low c_high N_low N_high
    None = Ok (Some c) ->
  exists m ms,
    midpoints (N_at mat b dy fcdv fydv ys layers) tol iters
      c_low c_high N_low = m :: ms /\
    c = last ms m /\
    Forall (fun x => tol <= Qabs (N_at mat b dy fcdv fydv ys layers x))
      (removelast (m :: ms)) /\
    (Qabs (N_at mat b dy fcdv fydv ys layers c) < tol \/
     length (m :: ms) = iters) /\
    (tol <= 0 -> length (m :: ms) = iters).
Proof.
  intros H.
  pose proof (bisect_last_midpoint _ _ _ _ _ _ _ _ _ _ _ _ _ _ _ H) as Hl.
  destruct (midpoints_stop (N_at mat b dy fcdv fydv ys layers) tol iters
              c_low c_high N_low) as (Hf & Hs & Ht).
  destruct (midpoints (N_at mat b dy fcdv fydv ys layers) tol iters
              c_low c_high N_low) as [|m ms]; [discriminate|].
  assert (Hc : c = last ms m) by congruence.
  exists m, ms. split; [reflexivity|]. split; [exact Hc|].
  split; [exact Hf|]. split; [|exact Ht].
  rewrite Hc, <- (last_cons ms m 0). apply Hs. discriminate.
Qed.

Lemma bisect_first_hit_witness :
  exists m ms,
    midpoints (N_at default_materials 300 15 17 (10000 # 23)
                 (y_centers 15 40) example_layers) 1000 5
      1e-3 1800 (- 1) = m :: ms /\
    (1800031 # 32000) = last ms m /\
    Forall (fun x => 1000 <= Qabs (N_at default_materials 300 15 17
                                     (10000 # 23) (y_centers 15 40)
                                     example_layers x))
      (removelast (m :: ms)) /\
    (Qabs (N_at default_materials 300 15 17 (10000 # 23)
             (y_centers 15 40) example_layers (1800031 # 32000)) < 1000 \/
     length (m :: ms) = 5%nat) /\
    (1000 <= 0 -> length (m :: ms) = 5%nat).
Proof.
  apply (bisect_first_hit default_materials 300 15 17 (10000 # 23)
           (y_centers 15 40) example_layers 1000 5 1e-3 1800 (- 1) 0
           (1800031 # 32000)).
  vm_compute. reflexivity.
Defined.

(** ** The reported capacity and lever arm *)



(** ** The reflection of the ordinates *)

(** [map_y] keeps an ordinate inside the section, [0 <= y <= h], for both
    signs; in exact arithmetic, applying it twice gives the ordinate back;
    and it reverses the order of two ordinates for ["negativo"] and keeps
    it for ["positivo"]. *)
Theorem map_y_reflection (sign : Sign) (h y y' : Q) :
  0 <= y -> y <= y' -> y' <= h ->
  0 <= map_y sign h y /\ map_y sign h y <= h /\
  map_y sign h (map_y sign h y) == y /\
  match sign with
  | positivo => map_y sign h y <= map_y sign h y'
  | negativo => map_y sign h y' <= map_y sign h y
  end.
Proof.
  intros H0 H1 H2. destruct sign; simpl; rewrite ?fsub_eq.
  - split; [lra|]. split; [lra|]. split; [reflexivity|lra].
  - split; [lra|]. split; [lra|]. split; [ring|lra].
Qed.

Lemma map_y_reflection_witness :
  0 <= map_y negativo 600 43 /\ map_y negativo 600 43 <= 600 /\
  map_y negativo 600 (map_y negativo 600 43) == 43 /\
  map_y negativo 600 557 <= map_y negativo 600 43.
Proof.
  apply (map_y_reflection negativo 600 43 557); discriminate.
Defined.

(** ** Scaling the width and the areas *)

Lemma Qltb_ext (x y x' y' : Q) :
  (x < y <-> x' < y') -> Qltb x y = Qltb x' y'.
Proof.
  intros H. destruct (Qltb x y) eqn:E; destruct (Qltb x' y') eqn:E';
    try reflexivity; bool_facts.
  - apply H in E. exfalso. apply (Qlt_not_le _ _ E E').
  - apply H in E'. exfalso. apply (Qlt_not_le _ _ E' E).
Qed.

Lemma Qle_bool_ext (x y x' y' : Q) :
  (x <= y <-> x' <= y') -> Qle_bool x y = Qle_bool x' y'.
Proof.
  intros H. destruct (Qle_bool x y) eqn:E; destruct (Qle_bool x' y') eqn:E';
    try reflexivity; bool_facts.
  - apply H in E. exfalso. apply (Qlt_not_le _ _ E' E).
  - apply H in E'. exfalso. apply (Qlt_not_le _ _ E E').
Qed.

Lemma scaled_tolerance_test (k x tol x' tol' : Q) :
  0 < k -> x' == k * x -> tol' == k * tol ->
  Qltb (Qabs x') tol' = Qltb (Qabs x) tol.
Proof.
  intros Hk Hx Ht. apply Qltb_ext.
  rewrite Hx, Ht, Qabs_Qmult, (Qabs_pos k) by lra.
  pose proof (Qabs_nonneg x) as Ha. set (a := Qabs x) in *.
  split; intros H; nra.
Qed.

Lemma scaled_sign_test (k a m a' m' : Q) :
  0 < k -> a' == k * a -> m' == k * m ->
  Qle_bool (fmul a' m') 0 = Qle_bool (fmul a m) 0.
Proof.
  intros Hk Ha Hm. apply Qle_bool_ext. rewrite !fmul_eq, Ha, Hm.
  assert (Hkk : 0 < k * k) by nra.
  assert (E : k * a * (k * m) == (k * k) * (a * m)) by ring.
  rewrite E. set (p := a * m). set (kk := k * k) in *.
  split; intros H; nra.
Qed.

Lemma scaled_expand_test (k a m a' m' : Q) :
  0 < k -> a' == k * a -> m' == k * m ->
  Qltb 0 (fmul a' m') = Qltb 0 (fmul a m).
Proof.
  intros Hk Ha Hm. apply Qltb_ext. rewrite !fmul_eq, Ha, Hm.
  assert (Hkk : 0 < k * k) by nra.
  assert (E : k * a * (k * m) == (k * k) * (a * m)) by ring.
  rewrite E. set (p := a * m). set (kk := k * k) in *.
  split; intros H; nra.
Qed.

Section Scaled.

Variables (mat : Materials) (b b' dy fcdv fydv : Q) (ys : list Q).
Variables (l l' : list SteelLayer) (k : Q).
Hypothesis Hk : 0 < k.
Hypothesis HN : forall c,
  N_at mat b' dy fcdv fydv ys l' c == k * N_at mat b dy fcdv fydv ys l c.

Lemma expand_bracket_scaled (attempts : nat) (N_low N_low' : Q) :
  N_low' == k * N_low ->
  forall c_high N_high N_high',
    N_high' == k * N_high ->
    exists ch Nh Nh',
      expand_bracket mat b dy fcdv fydv ys l attempts N_low c_high N_high
      = Ok (ch, Nh) /\
      expand_bracket mat b' dy fcdv fydv ys l' attempts N_low' c_high N_high'
      = Ok (ch, Nh') /\
      Nh' == k * Nh.
Proof.
  intros Hl. induction attempts as [|a IH]; intros c_high N_high N_high' Hh.
  - exists c_high, N_high, N_high'. auto.
  - cbn [expand_bracket].
    rewrite (scaled_expand_test k N_low N_high N_low' N_high' Hk Hl Hh).
    destruct (Qltb 0 (fmul N_low N_high)).
    + rewrite !sr_eq. cbn [bind]. apply IH, HN.
    + exists c_high, N_high, N_high'. auto.
Qed.

Lemma bisect_scaled (tol tol' : Q) (iters : nat) :
  tol' == k * tol ->
  forall c_low c_high N_low N_low' N_high N_high' c0,
    N_low' == k * N_low ->
    bisect mat b' dy fcdv fydv ys l' tol' iters c_low c_high N_low' N_high' c0
    = bisect mat b dy fcdv fydv ys l tol iters c_low c_high N_low N_high c0.
Proof.
  intros Ht. induction iters as [|n IH];
    intros c_low c_high N_low N_low' N_high N_high' c0 Hl; [reflexivity|].
  cbn [bisect]. rewrite !sr_eq. cbn [bind].
  set (c_mid := fmul 0.5 (fadd c_low c_high)).
  rewrite (scaled_tolerance_test k _ tol _ tol' Hk (HN c_mid) Ht).
  destruct (Qltb (Qabs (N_at mat b dy fcdv fydv ys l c_mid)) tol);
    [reflexivity|].
  rewrite (scaled_sign_test k N_low _ N_low' _ Hk Hl (HN c_mid)).
  destruct (Qle_bool (fmul N_low (N_at mat b dy fcdv fydv ys l c_mid)) 0);
    apply IH; [exact Hl|apply HN].
Qed.

End Scaled.

(** The areas of a list of layers multiplied by [k]. *)
Lemma scaled_resultants (mat : Materials) (b dy fcdv fydv : Q)
  (ys : list Q) (l : list SteelLayer) (k c : Q) :
  N_at mat (k * b) dy fcdv fydv ys
    (map (fun sl => mkSteelLayer (y_mm sl) (k * As_mm2 sl)) l) c
  == k * N_at mat b dy fcdv fydv ys l c /\
  M_at mat (k * b) dy fcdv fydv ys
    (map (fun sl => mkSteelLayer (y_mm sl) (k * As_mm2 sl)) l) c
  == k * M_at mat b dy fcdv fydv ys l c.
Proof.
  rewrite !N_at_sums, !M_at_sums, !map_map.
  assert (Hc : forall y,
            concrete_force mat (k * b) dy fcdv (curvature mat c) c y
            == k * concrete_force mat b dy fcdv (curvature mat c) c y).
  { intros y. rewrite !concrete_force_value. ring. }
  assert (Hs : forall sl,
            steel_force mat fydv (curvature mat c) c
              (mkSteelLayer (y_mm sl) (k * As_mm2 sl))
            == k * steel_force mat fydv (curvature mat c) c sl).
  { intros sl. rewrite !steel_force_value. simpl. ring. }
  split.
  - rewrite (Qsum_map_ext _ (fun y => k * concrete_force mat b dy fcdv
                                          (curvature mat c) c y) ys)
      by (intros y _; apply Hc).
    rewrite (Qsum_map_ext _ (fun sl => k * steel_force mat fydv
                                           (curvature mat c) c sl) l)
      by (intros sl _; apply Hs).
    rewrite !Qsum_map_scale. ring.
  - rewrite (Qsum_map_ext _ (fun y => k * (concrete_force mat b dy fcdv
                                          (curvature mat c) c y * y)) ys)
      by (intros y _; rewrite Hc; ring).
    rewrite (Qsum_map_ext _ (fun sl => k * (steel_force mat fydv
                                           (curvature mat c) c sl
                                            * y_mm sl)) l)
      by (intros sl _; rewrite Hs; simpl; ring).
    rewrite !Qsum_map_scale. ring.
Qed.

(** In exact arithmetic, multiplying the width, every steel area and the
    tolerance by the same [k > 0] leaves the neutral-axis depth as it was
    and multiplies MRd by [k]. *)
Theorem width_and_area_scaling (b h : Q) (sls : list SteelLayer)
  (mat : Materials) (n : Z) (sign : Sign) (tol : Q) (itmax : Z)
  (k MRd c : Q) (z : pyfloat) :
  0 < k ->
  mrd_fibers_rect b h sls mat n sign tol itmax = Ok (MRd, c, z) ->
  exists MRd' z',
    mrd_fibers_rect (k * b) h
      (map (fun sl => mkSteelLayer (y_mm sl) (k * As_mm2 sl)) sls)
      mat n sign (k * tol) itmax = Ok (MRd', c, z') /\
    MRd' == k * MRd.
Proof.
  intros Hk Hrun.
  destruct (mrd_fibers_rect_cases b h sls mat n sign tol itmax)
    as [[_ H]|[(_ & _ & _ & H)|[(_ & _ & _ & _ & _ & H)
                               |(Hc & Hs & Hn & Hfit & Hit & _)]]];
    [rewrite H in Hrun; discriminate|rewrite H in Hrun; discriminate
    |rewrite H in Hrun; discriminate|].
  pose proof (inject_Z_nonzero n Hn) as Hnz.
  pose proof (fdiv_ok (fmul (alpha_cc mat) (fck_MPa mat)) _ Hc) as Efc.
  pose proof (fdiv_ok (fyk_MPa mat) _ Hs) as Efy.
  assert (Edy : fdiv_int h n = Ok (Qred (h / inject_Z n))).
  { rewrite (fdiv_int_ok h n Hfit). apply fdiv_ok, Hnz. }
  rewrite (mrd_fibers_rect_unfold _ _ _ _ _ _ _ _ _ _ _ Efc Efy Edy) in Hrun.
  rewrite (mrd_fibers_rect_unfold _ _ _ _ _ _ _ _ _ _ _ Efc Efy Edy).
  set (fcdv := Qred (fmul (alpha_cc mat) (fck_MPa mat) / gamma_c mat)) in *.
  set (fydv := Qred (fyk_MPa mat / gamma_s mat)) in *.
  set (dy := Qred (h / inject_Z n)) in *.
  set (ys := y_centers dy n) in *.
  set (l := mapped_layers sign h sls) in *.
  assert (El : mapped_layers sign h
                 (map (fun sl => mkSteelLayer (y_mm sl) (k * As_mm2 sl)) sls)
               = map (fun sl => mkSteelLayer (y_mm sl) (k * As_mm2 sl)) l).
  { unfold l, mapped_layers. rewrite !map_map. reflexivity. }
  rewrite El. set (l' := map _ l).
  assert (HN : forall x,
            N_at mat (k * b) dy fcdv fydv ys l' x
            == k * N_at mat b dy fcdv fydv ys l x)
    by (intros x; apply scaled_resultants).
  destruct (solve_and_report_run mat b dy fcdv fydv ys l h tol itmax Hit)
    as (e & c0 & T & z0 & _ & _ & _ & Hbis & _ & _ & _ & Hrun0).
  rewrite Hrun0 in Hrun.
  assert (Ec : c0 = c) by congruence. subst c0.
  assert (EM : MRd = Qred (Qabs (M_at mat b dy fcdv fydv ys l c) / 1e6))
    by congruence.
  unfold solve_and_report in Hrun0 |- *.
  rewrite !sr_eq in Hrun0 |- *. cbn [bind] in Hrun0 |- *.
  destruct (expand_bracket_scaled mat b (k * b) dy fcdv fydv ys l l' k Hk HN
              8 _ _ (HN 1e-3) (fmul 3.0 h) _ _ (HN (fmul 3.0 h)))
    as (ch & Nh & Nh' & He & He' & Hh).
  rewrite He in Hrun0. rewrite He'. cbn [bind] in Hrun0 |- *.
  rewrite (bisect_scaled mat b (k * b) dy fcdv fydv ys l l' k Hk HN
             tol (k * tol) (Z.to_nat itmax) (Qeq_refl _)
             1e-3 ch _ _ Nh Nh' None (HN 1e-3)).
  destruct (bisect mat b dy fcdv fydv ys l tol (Z.to_nat itmax) 1e-3 ch
              (N_at mat b dy fcdv fydv ys l 1e-3) Nh None)
    as [[c1|]|err]; cbn [bind] in Hrun0 |- *; try discriminate.
  rewrite sr_eq in Hrun0 |- *. cbn [bind] in Hrun0 |- *.
  rewrite fdiv_ok in Hrun0 |- * by discriminate.
  cbn [bind] in Hrun0 |- *.
  destruct (tension_loop mat fydv l' c1 0) as (T' & HT' & _).
  rewrite HT'. cbn [bind].
  destruct (tension_loop mat fydv l c1 0) as (T1 & HT1 & _).
  rewrite HT1 in Hrun0. cbn [bind] in Hrun0.
  assert (Hz' : exists z', lever_arm (M_at mat (k * b) dy fcdv fydv ys l' c1)
                             T' = Ok z').
  { destruct (lever_arm_value (M_at mat (k * b) dy fcdv fydv ys l' c1) T')
      as [[_ H]|[_ H]]; rewrite H; eauto. }
  destruct Hz' as [z' Hz']. rewrite Hz'. cbn [bind].
  destruct (lever_arm (M_at mat b dy fcdv fydv ys l c1) T1) as [z1|err];
    cbn [bind] in Hrun0; [|discriminate].
  assert (Ec1 : c1 = c) by congruence. subst c1.
  exists (Qred (Qabs (M_at mat (k * b) dy fcdv fydv ys l' c) / 1e6)), z'.
  split; [reflexivity|].
  rewrite EM, !Qred_correct.
  destruct (scaled_resultants mat b dy fcdv fydv ys l k c) as [_ HM].
  fold l' in HM. rewrite HM, Qabs_Qmult, (Qabs_pos k) by lra.
  field; discriminate.
Qed.

Lemma width_and_area_scaling_witness :
  exists MRd' z',
    mrd_fibers_rect (2 * 300) 600
      (map (fun sl => mkSteelLayer (y_mm sl) (2 * As_mm2 sl)) example_layers)
      default_materials 40 positivo (2 * 1000) 120
    = Ok (MRd', 257403953 # 4096000, z') /\
    MRd' == 2 * (32997213837115483173571871 # 179283092407129742000000).
Proof.
  apply (width_and_area_scaling 300 600 example_layers default_materials 40
           positivo 1000 120 2
           (32997213837115483173571871 # 179283092407129742000000)
           (257403953 # 4096000)
           (Finite (32997213837115483173571871 # 62690620464536563045000)));
    [reflexivity|vm_compute; reflexivity].
Defined.

(** ** Tension reinforcement: forces and moments of the fibres *)






Section Fibres.

Variables (mat : Materials) (b dy fcdv fydv : Q).
Hypothesis Hfcd : 0 <= fcdv.
Hypothesis Hfyd : 0 <= fydv.
Hypothesis HEs : 0 <= Es_MPa mat.
Hypothesis Heu : 0 <= eps_cu2 mat.
Hypothesis Hb : 0 <= b.
Hypothesis Hdy : 0 <= dy.








End Fibres.




Section Moments.

Variables (mat : Materials) (b dy fcdv fydv : Q).
Variables (ys : list Q) (layers : list SteelLayer).
Hypothesis Hfcd : 0 <= fcdv.
Hypothesis Hfyd : 0 <= fydv.
Hypothesis HEs : 0 <= Es_MPa mat.
Hypothesis Heu : 0 <= eps_cu2 mat.
Hypothesis Hb : 0 <= b.
Hypothesis Hdy : 0 <= dy.
Hypothesis Hys : forall y, In y ys -> 0 <= y.
Hypothesis HL : forall sl, In sl layers -> 0 <= y_mm sl /\ 0 <= As_mm2 sl.

Local Abbreviation N := (N_at mat b dy fcdv fydv ys layers).
Local Abbreviation M := (M_at mat b dy fcdv fydv ys layers).




End Moments.

(** ** Tension reinforcement: the area of the deepest layer *)






(** The allowance for the tolerance is needed, also for the deepest
    layer: raising the area of the lower layer of the section below by
    [1e-6] mm2 moves the depth returned by less than [1e-6] mm and lowers
    MRd by a little less than [1e-7] kN m, both calls meeting the
    tolerance. *)
Example tension_area_within_tolerance :
  exists MRd c z MRd' c' z',
    mrd_fibers_rect 300 600
      [mkSteelLayer 43 402.12; mkSteelLayer 557 2878.9]
      default_materials 40 positivo 1e-3 120 = Ok (MRd, c, z) /\
    mrd_fibers_rect 300 600
      [mkSteelLayer 43 402.12; mkSteelLayer 557 2878.900001]
      default_materials 40 positivo 1e-3 120 = Ok (MRd', c', z') /\
    Qabs (N_at default_materials 300 15 17 (10000 # 23) (y_centers 15 40)
            [mkSteelLayer 43 402.12; mkSteelLayer 557 2878.9] c) < 1e-3 /\
    Qabs (N_at default_materials 300 15 17 (10000 # 23) (y_centers 15 40)
            [mkSteelLayer 43 402.12; mkSteelLayer 557 2878.900001] c')
    < 1e-3 /\
    steel_force default_materials (10000 # 23)
      (curvature default_materials c) c (mkSteelLayer 557 2878.9) < 0 /\
    steel_force default_materials (10000 # 23)
      (curvature default_materials c') c' (mkSteelLayer 557 2878.900001)
    < 0 /\
    MRd' < MRd /\ MRd - 1e-7 < MRd'.
Proof.
  eexists _, _, _, _, _, _.
  do 7 (split; [vm_compute; reflexivity|]).
  vm_compute; reflexivity.
Qed.
